(** * Article discovery and metadata aggregation ([src/lib/articles.ts])

    A shallow embedding of [importArticle] and [getAllArticles], together
    with the pieces of the JavaScript run time they rely on: object spread,
    truthiness, the [Date] constructor, [String.prototype.replace] with the
    slug regular expression, [Promise.all], [Array.prototype.filter] and
    [Array.prototype.sort], and the [fast-glob] call that lists the content
    units. *)

From Stdlib Require Import ZArith Ascii String List Sorted Permutation Lia Bool.
From stdpp Require Import base list strings gmap.


Local Open Scope Z_scope.

(** ** JavaScript values *)

Module JS.

(** The primitive values a metadata field can hold.  Numbers are the
    integers and NaN, which is all that the time arithmetic below needs. *)
Inductive value : Type :=
  | VUndefined
  | VNull
  | VBool (b : bool)
  | VNum (n : Z)
  | VNaN
  | VStr (s : string).

(** A plain object: its own enumerable properties. *)
Abbreviation obj := (gmap string value).

(** Property read [o.k]: a missing property reads as [undefined]. *)
Definition get (o : obj) (k : string) : value :=
  default VUndefined (o !! k).

(** ToBoolean. *)
Definition truthy (v : value) : bool :=
  match v with
  | VUndefined | VNull | VNaN => false
  | VBool b => b
  | VNum n => negb (n =? 0)
  | VStr s => negb (String.eqb s "")
  end.

(** Object literal [{ ...base, ...over }]: the properties of [over] are
    copied after those of [base] and win on a shared key.  Spreading
    [undefined] copies nothing. *)
Definition spread (base : obj) (over : option obj) : obj :=
  match over with
  | Some o => o ∪ base
  | None => base
  end.

(** A time value: [None] is NaN. *)
Abbreviation num := (option Z).

(** TimeClip: time values beyond 8.64e15 ms are NaN. *)
Definition TimeClip (t : Z) : num :=
  if Z.abs t <=? 8640000000000000 then Some t else None.

(** Numeric subtraction [a - b]; NaN is absorbing.  On time values the
    sign of the floating-point difference is the sign of the exact one. *)
Definition sub (a b : num) : num :=
  match a, b with
  | Some x, Some y => Some (x - y)
  | _, _ => None
  end.

(** States of a promise. *)
Inductive promise (A : Type) : Type :=
  | Pending
  | Fulfilled (a : A)
  | Rejected (reason : string).
Arguments Pending {A}.
Arguments Fulfilled {A} a.
Arguments Rejected {A} reason.

End JS.
Export JS.

(** ** The slug regular expression *)

(** [s.replace(/(\/page)?\.mdx$/, '')].  The pattern is anchored at the end
    of the input, so a match is a suffix of [s] that reads [/page.mdx] (the
    optional group taken) or [.mdx] (the group skipped).  The engine tries
    the start positions from left to right and replaces the first match
    only; with no match the string is returned unchanged. *)
Fixpoint replace_page_mdx (s : string) : string :=
  if String.eqb s "/page.mdx" || String.eqb s ".mdx" then ""
  else match s with
       | EmptyString => EmptyString
       | String c s' => String c (replace_page_mdx s')
       end.

(** ** The locator: [fast-glob] *)

Module Glob.

(** A directory tree.  Entry names are single path segments. *)
#[warnings="-register-all"]
Inductive node : Type :=
  | File
  | Dir (entries : list (string * node)).

Abbreviation dir := (list (string * node)).

(** Split a pattern at [/]. *)
Fixpoint split_slash (acc s : string) : list string :=
  match s with
  | EmptyString => [acc]
  | String c s' =>
      if Ascii.eqb c "/" then acc :: split_slash "" s'
      else split_slash (acc +:+ String c "") s'
  end.

(** One pattern segment against one entry name; [*] stands for any run of
    characters of the name. *)
Fixpoint wild_match (p : string) (name : string) : bool :=
  match p with
  | EmptyString => String.eqb name ""
  | String c p' =>
      if Ascii.eqb c "*" then
        (fix star (n : string) : bool :=
           wild_match p' n ||
           match n with
           | EmptyString => false
           | String _ n' => star n'
           end) name
      else
        match name with
        | EmptyString => false
        | String d n' => Ascii.eqb c d && wild_match p' n'
        end
  end.

Definition leading_dot (s : string) : bool :=
  match s with
  | String c _ => Ascii.eqb c "."
  | EmptyString => false
  end.

(** The options of the call that matter here, at their defaults: [dot] is
    false, so a name that begins with a period is matched only by a segment
    that itself begins with a period; [onlyFiles] is true, so only regular
    files are reported. *)
Definition segment_match (p name : string) : bool :=
  (negb (leading_dot name) || leading_dot p) && wild_match p name.

Definition is_file (n : node) : bool :=
  match n with File => true | Dir _ => false end.

(** Walk the tree one pattern segment per level, in directory order. *)
Fixpoint walk (segs : list string) (prefix : string) (d : dir) : list string :=
  match segs with
  | [] => []
  | [p] =>
      flat_map (fun e : string * node =>
                  if segment_match p (fst e) && is_file (snd e)
                  then [prefix +:+ fst e] else []) d
  | p :: segs' =>
      flat_map (fun e : string * node =>
                  match snd e with
                  | Dir sub =>
                      if segment_match p (fst e)
                      then walk segs' (prefix +:+ fst e +:+ "/") sub
                      else []
                  | File => []
                  end) d
  end.

(** [glob(pattern, { cwd })], with [cwd] given as its directory listing. *)
Definition glob (pattern : string) (cwd : dir) : list string :=
  walk (split_slash "" pattern) "" cwd.

End Glob.

(** ** The host: file system, module loader, date parser *)

(** What [import(...)] of a content unit resolves to, as far as
    [importArticle] looks at it: the [article] export, [None] when the
    module exports no such binding (it then reads as [undefined]). *)
Record module_ns : Type := { article : option obj }.

Record host : Type := {
  (** the listing of [./src/app/articles] *)
  articles_dir : Glob.dir;
  (** the settled state of [import(specifier)] *)
  import_ : string -> promise module_ns;
  (** the engine's [Date.parse]; implementation-defined outside the
      ISO format *)
  Date_parse : string -> num
}.

(** [+new Date(v)]: a string is parsed, any other primitive is converted
    with ToNumber; the time value is clipped. *)
Definition Date_valueOf (h : host) (v : value) : num :=
  match v with
  | VStr s => Date_parse h s ≫= TimeClip
  | VUndefined | VNaN => None
  | VNull => TimeClip 0
  | VBool b => TimeClip (if b then 1 else 0)
  | VNum n => TimeClip n
  end.

(** ** [Array.prototype.sort] *)

(** The value the sort acts on for a comparator result: NaN counts as +0. *)
Definition SortCompare (v : num) : Z := default 0 v.

(** The sort is stable.  For a consistent comparator every stable sort
    returns the same array, the one computed here by insertion; for an
    inconsistent one the order is implementation-defined and this
    definition fixes one such order. *)
Fixpoint sort_insert {A : Type} (cmp : A -> A -> num) (x : A) (l : list A)
  : list A :=
  match l with
  | [] => [x]
  | y :: l' =>
      if 0 <? SortCompare (cmp x y) then y :: sort_insert cmp x l'
      else x :: y :: l'
  end.

Fixpoint Array_sort {A : Type} (cmp : A -> A -> num) (l : list A) : list A :=
  match l with
  | [] => []
  | x :: l' => sort_insert cmp x (Array_sort cmp l')
  end.

(** ** [Promise.all] *)

Module PromiseAll.
Section PromiseAll.
Context {A : Type}.

(** The bookkeeping of [Promise.all]: the [values] array with one slot
    per input promise, the count of promises still awaited, and the
    state of the promise handed back. *)
Record state : Type := {
  values : list (option A);
  remaining : nat;
  result : promise (list A)
}.

(** Resolving or rejecting a promise that is already settled does
    nothing. *)
Definition resolve (p : promise (list A)) (vs : list A) : promise (list A) :=
  match p with Pending => Fulfilled vs | _ => p end.

Definition reject (p : promise (list A)) (e : string) : promise (list A) :=
  match p with Pending => Rejected e | _ => p end.

(** The array of values read off the slots. *)
Definition collect (slots : list (option A)) : list A := omap id slots.

Definition init (n : nat) : state :=
  {| values := replicate n None;
     remaining := n;
     result := if (n =? 0)%nat then Fulfilled [] else Pending |}.

(** The reaction that runs when input promise [i] settles. *)
Definition settle (ps : list (promise A)) (st : state) (i : nat) : state :=
  match ps !! i with
  | Some (Fulfilled v) =>
      let vals := <[i := Some v]> (values st) in
      let r := (remaining st - 1)%nat in
      {| values := vals;
         remaining := r;
         result := if (r =? 0)%nat then resolve (result st) (collect vals)
                   else result st |}
  | Some (Rejected e) =>
      {| values := values st;
         remaining := remaining st;
         result := reject (result st) e |}
  | Some Pending | None => st
  end.

(** [Promise.all(ps)] once the input promises have settled in the order
    [sched] (a list of positions in [ps]). *)
Definition all (sched : list nat) (ps : list (promise A)) : promise (list A) :=
  result (foldl (settle ps) (init (length ps)) sched).

(** Bookkeeping for the proofs: the value input promise [i] fulfils
    with, and whether it fulfils or rejects. *)
Definition value_of (p : promise A) : option A :=
  match p with Fulfilled a => Some a | _ => None end.

Definition slot_of (ps : list (promise A)) (i : nat) : option A :=
  ps !! i ≫= value_of.

Definition fulfils_at (ps : list (promise A)) (i : nat) : bool :=
  match ps !! i with Some (Fulfilled _) => true | _ => false end.

Definition rejects_at (ps : list (promise A)) (i : nat) : bool :=
  match ps !! i with Some (Rejected _) => true | _ => false end.

(** The state [Promise.all(ps)] is in once every input promise that
    settles has settled, as a function of the inputs alone: rejected if
    an input rejects, the values in input order if all fulfil, pending
    otherwise.  [None] is pending, [Some None] is rejected. *)
Definition settled (ps : list (promise A)) : option (option (list A)) :=
  if existsb (fun p => match p with Rejected _ => true | _ => false end) ps
  then Some None
  else match mapM value_of ps with
       | Some vs => Some (Some vs)
       | None => None
       end.
End PromiseAll.
Arguments state : clear implicits.
End PromiseAll.

(** ** [src/lib/articles.ts] *)

Definition importArticle (h : host) (articleFilename : string) : promise obj :=
  match import_ h ("../app/articles/" +:+ articleFilename) with
  | Pending => Pending
  | Rejected e => Rejected e
  | Fulfilled m =>
      Fulfilled
        (spread {[ "slug" := VStr (replace_page_mdx articleFilename) ]}
                (article m))
  end.

(** The comparator handed to [sort]. *)
Definition by_date_desc (h : host) (a z : obj) : num :=
  sub (Date_valueOf h (get z "date")) (Date_valueOf h (get a "date")).

(** [getAllArticles(includePrivate)], with the order [sched] in which the
    imports settle made explicit. *)
Definition getAllArticles (h : host) (sched : list nat) (includePrivate : bool)
  : promise (list obj) :=
  let articleFilenames := Glob.glob "*/page.mdx" (articles_dir h) in
  match PromiseAll.all sched (map (importArticle h) articleFilenames) with
  | Pending => Pending
  | Rejected e => Rejected e
  | Fulfilled articles =>
      let filteredArticles :=
        if includePrivate then articles
        else List.filter (fun article => negb (truthy (get article "isPrivate")))
                         articles in
      Fulfilled (Array_sort (by_date_desc h) filteredArticles)
  end.

(** ** A date parser for the examples *)

(** The ISO date-only form [YYYY-MM-DD], read as UTC midnight, which is how
    every article of the site writes its [date]; every other string is
    rejected.  It instantiates [Date_parse] in the concrete hosts below. *)
Module IsoDate.

Definition digit (c : ascii) : option Z :=
  let n := Z.of_N (N_of_ascii c) in
  if (48 <=? n) && (n <=? 57) then Some (n - 48) else None.

Fixpoint number (acc : Z) (s : string) : option Z :=
  match s with
  | EmptyString => Some acc
  | String c s' =>
      match digit c with
      | Some k => number (10 * acc + k) s'
      | None => None
      end
  end.

Definition leap (y : Z) : bool :=
  ((y mod 4 =? 0) && negb (y mod 100 =? 0)) || (y mod 400 =? 0).

Definition days_in_month (y m : Z) : Z :=
  if m =? 2 then (if leap y then 29 else 28)
  else if (m =? 4) || (m =? 6) || (m =? 9) || (m =? 11) then 30
  else 31.

(** Days from 1970-01-01 to the given civil date. *)
Definition days_from_civil (y m d : Z) : Z :=
  let y' := if m <=? 2 then y - 1 else y in
  let era := y' / 400 in
  let yoe := y' - era * 400 in
  let mp := if 2 <? m then m - 3 else m + 9 in
  let doy := (153 * mp + 2) / 5 + d - 1 in
  let doe := yoe * 365 + yoe / 4 - yoe / 100 + doy in
  era * 146097 + doe - 719468.

Definition parse (s : string) : num :=
  if negb (String.length s =? 10)%nat then None
  else if negb (String.eqb (substring 4 1 s) "-" && String.eqb (substring 7 1 s) "-")
  then None
  else
    match number 0 (substring 0 4 s), number 0 (substring 5 2 s),
          number 0 (substring 8 2 s) with
    | Some y, Some m, Some d =>
        if (1 <=? m) && (m <=? 12) && (1 <=? d) && (d <=? days_in_month y m)
        then Some (days_from_civil y m d * 86400000)
        else None
    | _, _, _ => None
    end.

End IsoDate.

(** ** Concrete hosts *)

Module Examples.

Definition meta (date : string) (private : option bool) : obj :=
  let base : obj :=
    {[ "author" := VStr "Facundo Martin"; "title" := VStr "T";
       "description" := VStr ""; "date" := VStr date;
       "isFeatured" := VBool true ]} in
  match private with
  | Some b => <[ "isPrivate" := VBool b ]> base
  | None => base
  end.

Definition unit_dir : Glob.node := Glob.Dir [("page.mdx", Glob.File)].

Definition loader (units : list (string * promise module_ns)) (spec : string)
  : promise module_ns :=
  match List.find (fun u => String.eqb ("../app/articles/" +:+ fst u +:+ "/page.mdx") spec) units with
  | Some u => snd u
  | None => Rejected "Cannot find module"
  end.

Definition mk_host (units : list (string * promise module_ns)) : host :=
  {| articles_dir := map (fun u => (fst u, unit_dir)) units;
     import_ := loader units;
     Date_parse := IsoDate.parse |}.

(** Three articles, the newest one private. *)
Definition three_articles : host :=
  mk_host [ ("a", Fulfilled {| article := Some (meta "2024-01-01" None) |});
            ("b", Fulfilled {| article := Some (meta "2025-01-10" None) |});
            ("c", Fulfilled {| article := Some (meta "2025-04-24" (Some true)) |}) ].

(** Two articles; the module of the second has no [article] export. *)
Definition missing_export : host :=
  mk_host [ ("a", Fulfilled {| article := Some (meta "2024-01-01" None) |});
            ("b", Fulfilled {| article := None |}) ].

(** Two articles; the metadata of the first has no [date]. *)
Definition missing_date : host :=
  mk_host [ ("a", Fulfilled {| article := Some (delete "date" (meta "2024-01-01" None)) |});
            ("b", Fulfilled {| article := Some (meta "2025-01-10" None) |}) ].

(** Two articles; the import of the second rejects. *)
Definition broken_import : host :=
  mk_host [ ("a", Fulfilled {| article := Some (meta "2024-01-01" None) |});
            ("b", Rejected "SyntaxError") ].

(** One article whose metadata declares a [slug] of its own. *)
Definition own_slug : host :=
  mk_host [ ("a", Fulfilled {| article :=
                 Some (<[ "slug" := VStr "custom" ]> (meta "2024-01-01" None)) |}) ].

(** A content root whose only subdirectory has a name that begins with a
    period. *)
Definition dot_directory : Glob.dir := [ (".drafts", unit_dir) ].

(** A content root with a subdirectory that has no entry file, an entry
    file one level too deep, and a stray file. *)
Definition no_units : Glob.dir :=
  [ ("empty", Glob.Dir []);
    ("nested", Glob.Dir [("deep", unit_dir)]);
    ("page.mdx", Glob.File) ].

End Examples.

(** ** A date parser with a local time zone *)

(** [Date.parse] on two ISO forms, in an engine whose local time is
    [offset] minutes ahead of UTC: the date-only form [YYYY-MM-DD], read as
    UTC midnight, and the date-time form [YYYY-MM-DDTHH:mm] (hours 00 to
    23), which carries no offset and is therefore read as local time. *)
Module LocalTime.

Definition parse (offset : Z) (s : string) : num :=
  if (String.length s =? 10)%nat then IsoDate.parse s
  else if (String.length s =? 16)%nat
          && String.eqb (substring 10 1 s) "T"
          && String.eqb (substring 13 1 s) ":"
  then
    match IsoDate.parse (substring 0 10 s),
          IsoDate.number 0 (substring 11 2 s),
          IsoDate.number 0 (substring 14 2 s) with
    | Some day, Some hh, Some mm =>
        if (hh <=? 23) && (mm <=? 59)
        then Some (day + (hh * 60 + mm - offset) * 60000)
        else None
    | _, _, _ => None
    end
  else None.

End LocalTime.

(** Further hosts. *)
Module MoreExamples.

(** Two articles of one and the same day, the second dated with a local
    time of day, on an engine [offset] minutes ahead of UTC. *)
Definition time_of_day_units : list (string * promise module_ns) :=
  [ ("a", Fulfilled {| article := Some (Examples.meta "2025-01-10" None) |});
    ("b", Fulfilled {| article := Some (Examples.meta "2025-01-10T01:00" None) |}) ].

Definition in_time_zone (offset : Z) : host :=
  {| articles_dir := map (fun u => (fst u, Examples.unit_dir)) time_of_day_units;
     import_ := Examples.loader time_of_day_units;
     Date_parse := LocalTime.parse offset |}.

(** Three articles, the first and the last published on the same day. *)
Definition same_day : host :=
  Examples.mk_host
    [ ("x", Fulfilled {| article := Some (Examples.meta "2025-01-10" None) |});
      ("y", Fulfilled {| article := Some (Examples.meta "2025-04-24" None) |});
      ("z", Fulfilled {| article := Some (Examples.meta "2025-01-10" None) |}) ].

(** Two articles; the import of the second never settles. *)
Definition hanging_import : host :=
  Examples.mk_host
    [ ("a", Fulfilled {| article := Some (Examples.meta "2024-01-01" None) |});
      ("b", Pending) ].

End MoreExamples.

(** ** Vocabulary of the specification *)

(** [p] names the entry file of an immediate subdirectory of [d]. *)
Definition one_level_entry (d : Glob.dir) (p : string) : Prop :=
  exists name sub,
    In (name, Glob.Dir sub) d /\ In ("page.mdx", Glob.File) sub /\
    p = name +:+ "/page.mdx".

(** The content units of a host, as discovered. *)
Definition articleFilenames (h : host) : list string :=
  Glob.glob "*/page.mdx" (articles_dir h).

(** The import specifier of a content unit. *)
Definition specifier (articleFilename : string) : string :=
  "../app/articles/" +:+ articleFilename.

(** A schedule in which the import of every content unit settles, each
    one once, in some order. *)
Definition fair (h : host) (sched : list nat) : Prop :=
  sched ≡ₚ seq 0 (length (articleFilenames h)).

(** [date(a) >= date(b)]: a comparison with NaN is false. *)
Definition date_ge (h : host) (a b : obj) : Prop :=
  match Date_valueOf h (get a "date"), Date_valueOf h (get b "date") with
  | Some ta, Some tb => tb <= ta
  | _, _ => False
  end.

Definition valid_date (h : host) (a : obj) : Prop :=
  is_Some (Date_valueOf h (get a "date")).

Definition valid_dateb (h : host) (a : obj) : bool :=
  match Date_valueOf h (get a "date") with Some _ => true | None => false end.

(** The visibility test of the filter. *)
Definition visible (a : obj) : bool := negb (truthy (get a "isPrivate")).

(** The records the filter step keeps. *)
Definition kept (includePrivate : bool) (articles : list obj) : list obj :=
  if includePrivate then articles else List.filter visible articles.

(** The result sequence of a call, if it returned one. *)
Definition returned {A : Type} (p : promise (list A)) : option (list A) :=
  match p with Fulfilled l => Some l | _ => None end.

Definition is_rejected {A : Type} (p : promise A) : bool :=
  match p with Rejected _ => true | _ => false end.

Definition is_fulfilled {A : Type} (p : promise A) : bool :=
  match p with Fulfilled _ => true | _ => false end.

(** The state of a promise without the rejection reason. *)
Definition outcome {A : Type} (p : promise A) : option (option A) :=
  match p with
  | Pending => None
  | Fulfilled a => Some (Some a)
  | Rejected _ => Some None
  end.

(** ** The MDX loader ([next.config.mjs]) *)

(** [/\.mdx?$/.test(s)], the [extension] option handed to [nextMDX]: the
    pattern is anchored at the end of the input, so it matches when some
    suffix of [s] reads [.md] or [.mdx]. *)
Fixpoint mdx_extension (s : string) : bool :=
  String.eqb s ".md" || String.eqb s ".mdx" ||
  match s with
  | EmptyString => false
  | String _ s' => mdx_extension s'
  end.

(** ** Further vocabulary *)

(** A directory that holds a regular file named [page.mdx]. *)
Definition has_entry (n : Glob.node) : bool :=
  match n with
  | Glob.Dir sub =>
      existsb (fun e : string * Glob.node =>
                 String.eqb "page.mdx" (fst e) && Glob.is_file (snd e)) sub
  | Glob.File => false
  end.

(** An entry of the content root that is a content unit. *)
Definition is_unit (e : string * Glob.node) : bool :=
  negb (Glob.leading_dot (fst e)) && has_entry (snd e).

(** The names in a directory are pairwise distinct, here and one level
    down. *)
Definition distinct_names (d : Glob.dir) : Prop :=
  List.NoDup (map fst d) /\
  forall name sub, In (name, Glob.Dir sub) d -> List.NoDup (map fst sub).

(** The record's date is the time value [t]. *)
Definition dated_at (h : host) (t : Z) (r : obj) : bool :=
  match Date_valueOf h (get r "date") with
  | Some t' => t' =? t
  | None => false
  end.

(** The time value of a record's date, for records whose date is valid. *)
Definition time_of (h : host) (r : obj) : Z :=
  default 0%Z (Date_valueOf h (get r "date")).

(** The records of the units whose import fulfils, in discovery order. *)
Definition loaded (h : host) : list obj :=
  omap (fun f => PromiseAll.value_of (importArticle h f)) (articleFilenames h).

(** The settle events so far: no import settles twice. *)
Definition partial_schedule (h : host) (sched : list nat) : Prop :=
  NoDup sched /\
  forall i, i ∈ sched -> (i < length (articleFilenames h))%nat.

(** The reason of the first input promise to reject, in settle order. *)
Fixpoint first_rejection {A : Type} (ps : list (promise A)) (sched : list nat)
  : option string :=
  match sched with
  | [] => None
  | i :: sched' =>
      match ps !! i with
      | Some (Rejected e) => Some e
      | _ => first_rejection ps sched'
      end
  end.

(** * Properties *)

(** ** The slug *)

Section Slug.

Lemma length_append (s t : string) :
  String.length (s +:+ t) = (String.length s + String.length t)%nat.
Proof. induction s as [|c s IH]; simpl; [reflexivity | now rewrite IH]. Qed.

(** A string longer than the two possible matches is not one of them. *)
Lemma no_match_when_longer (c : ascii) (d : string) :
  String.eqb (String c (d +:+ "/page.mdx")) "/page.mdx"
  || String.eqb (String c (d +:+ "/page.mdx")) ".mdx" = false.
Proof.
  apply orb_false_iff; split; apply String.eqb_neq; intros E;
    apply (f_equal String.length) in E; simpl in E;
    rewrite length_append in E; simpl in E; lia.
Qed.

Lemma replace_page_mdx_entry (d : string) :
  replace_page_mdx (d +:+ "/page.mdx") = d.
Proof.
  induction d as [|c d IH].
  - reflexivity.
  - change (String c d +:+ "/page.mdx") with (String c (d +:+ "/page.mdx")).
    cbn [replace_page_mdx]. rewrite no_match_when_longer. now rewrite IH.
Qed.

End Slug.

(** ** The locator *)

Section Locator.
Import Glob.

Lemma append_assoc (s t u : string) : (s +:+ t) +:+ u = s +:+ (t +:+ u).
Proof.
  induction s as [|c s IH]; [reflexivity |].
  change (String c ((s +:+ t) +:+ u) = String c (s +:+ (t +:+ u))).
  now rewrite IH.
Qed.

Lemma wild_match_star (name : string) : wild_match "*" name = true.
Proof.
  induction name as [|c name IH]; [reflexivity |].
  cbn in IH |- *. exact IH.
Qed.

Lemma wild_match_page_mdx (name : string) :
  wild_match "page.mdx" name = String.eqb "page.mdx" name.
Proof.
  do 8 (destruct name as [|? name]; [reflexivity |]; cbn; f_equal).
  destruct name; reflexivity.
Qed.

Lemma segment_match_star (name : string) :
  segment_match "*" name = negb (leading_dot name).
Proof.
  unfold segment_match. rewrite wild_match_star.
  cbn. now rewrite orb_false_r, andb_true_r.
Qed.

Lemma segment_match_page_mdx (name : string) :
  segment_match "page.mdx" name = String.eqb "page.mdx" name.
Proof.
  unfold segment_match. rewrite wild_match_page_mdx.
  destruct (String.eqb_spec "page.mdx" name) as [<-|]; [reflexivity |].
  apply andb_false_r.
Qed.

(** The entry files of one subdirectory. *)
Lemma walk_entry (prefix : string) (sub : dir) (p : string) :
  In p (walk ["page.mdx"] prefix sub) <->
  In ("page.mdx", File) sub /\ p = prefix +:+ "page.mdx".
Proof.
  cbn [walk]. rewrite in_flat_map. split.
  - intros [[name n] [Hin Hp]]. cbn [fst snd] in Hp.
    rewrite segment_match_page_mdx in Hp.
    destruct (String.eqb_spec "page.mdx" name) as [<-|]; [|destruct Hp].
    destruct n; cbn in Hp; [|destruct Hp].
    destruct Hp as [<-|[]]. now split.
  - intros [Hin ->]. exists ("page.mdx", File). split; [exact Hin |].
    cbn. now left.
Qed.

(** What [glob('*/page.mdx')] reports: the entry file of every immediate
    subdirectory whose name does not begin with a period. *)
Lemma glob_page_mdx (d : dir) (p : string) :
  In p (glob "*/page.mdx" d) <->
  exists name sub,
    In (name, Dir sub) d /\ leading_dot name = false /\
    In ("page.mdx", File) sub /\ p = name +:+ "/page.mdx".
Proof.
  unfold glob. change (split_slash "" "*/page.mdx") with ["*"; "page.mdx"].
  cbn [walk]. rewrite in_flat_map. split.
  - intros [[name n] [Hin Hp]]. cbn [fst snd] in Hp.
    destruct n as [|sub]; [destruct Hp |].
    rewrite segment_match_star in Hp.
    destruct (leading_dot name) eqn:Hdot; [destruct Hp |]. cbn [negb] in Hp.
    apply walk_entry in Hp as [Hsub ->].
    exists name, sub. repeat split; try assumption.
    change ("" +:+ name +:+ "/") with (name +:+ "/").
    now rewrite append_assoc.
  - intros (name & sub & Hin & Hdot & Hsub & ->).
    exists (name, Dir sub). split; [exact Hin |]. cbn [fst snd].
    rewrite segment_match_star, Hdot. cbn [negb].
    apply walk_entry. split; [exact Hsub |].
    change ("" +:+ name +:+ "/") with (name +:+ "/").
    now rewrite append_assoc.
Qed.

Lemma glob_page_mdx_form (d : dir) :
  Forall (fun f => exists name, f = name +:+ "/page.mdx") (glob "*/page.mdx" d).
Proof.
  apply List.Forall_forall. intros f Hf.
  apply glob_page_mdx in Hf as (name & _ & _ & _ & _ & ->). now exists name.
Qed.

End Locator.

(** ** The sort *)

Section Sort.
Context {A : Type} (cmp : A -> A -> num).

Lemma sort_insert_perm (x : A) (l : list A) :
  Permutation (sort_insert cmp x l) (x :: l).
Proof.
  induction l as [|y l IH]; cbn [sort_insert]; [reflexivity |].
  destruct (0 <? SortCompare (cmp x y)); [|reflexivity].
  rewrite IH. apply perm_swap.
Qed.

(** Whatever the comparator answers, sorting neither drops nor
    duplicates an element. *)
Lemma Array_sort_perm (l : list A) : Permutation (Array_sort cmp l) l.
Proof.
  induction l as [|x l IH]; cbn [Array_sort]; [reflexivity |].
  rewrite sort_insert_perm. now apply perm_skip.
Qed.

(** Sortedness, for elements on which the comparator decides the
    relation [R]. *)
Variables (R : A -> A -> Prop) (P : A -> Prop).
Hypothesis decides :
  forall x y, P x -> P y ->
    if 0 <? SortCompare (cmp x y) then R y x else R x y.

Lemma sort_insert_HdRel (a x : A) (l : list A) :
  R a x -> HdRel R a l -> HdRel R a (sort_insert cmp x l).
Proof.
  intros Hax Hal. destruct l as [|y l]; cbn [sort_insert].
  - now constructor.
  - destruct (0 <? SortCompare (cmp x y)); constructor;
      [now inversion Hal | exact Hax].
Qed.

Lemma sort_insert_Sorted (x : A) (l : list A) :
  P x -> Forall P l -> Sorted R l -> Sorted R (sort_insert cmp x l).
Proof.
  intros Px Pl Hl. induction Hl as [|y l Hl IH Hy]; cbn [sort_insert].
  - repeat constructor.
  - apply Forall_cons in Pl as [Py Pl].
    pose proof (decides x y Px Py) as Hd.
    destruct (0 <? SortCompare (cmp x y)).
    + constructor; [now apply IH |]. now apply sort_insert_HdRel.
    + constructor; [now constructor |]. now constructor.
Qed.

Lemma Array_sort_Sorted (l : list A) :
  Forall P l -> Sorted R (Array_sort cmp l).
Proof.
  induction l as [|x l IH]; intros Pl; cbn [Array_sort]; [constructor |].
  apply Forall_cons in Pl as [Px Pl].
  apply sort_insert_Sorted; [exact Px | | now apply IH].
  now rewrite Array_sort_perm.
Qed.

End Sort.

Section ByDate.
Variable h : host.

Lemma by_date_desc_decides (x y : obj) :
  valid_date h x -> valid_date h y ->
  if 0 <? SortCompare (by_date_desc h x y) then date_ge h y x
  else date_ge h x y.
Proof.
  unfold valid_date, by_date_desc, date_ge.
  intros [tx ->] [ty ->]. cbn.
  destruct (Z.ltb_spec 0 (ty - tx)); lia.
Qed.

(** With every date valid the result is in descending date order. *)
Lemma sort_by_date_Sorted (l : list obj) :
  Forall (valid_date h) l -> Sorted (date_ge h) (Array_sort (by_date_desc h) l).
Proof. apply Array_sort_Sorted, by_date_desc_decides. Qed.

Lemma valid_dateb_spec (l : list obj) :
  forallb (valid_dateb h) l = true <-> Forall (valid_date h) l.
Proof.
  rewrite forallb_forall, List.Forall_forall.
  unfold valid_dateb, valid_date.
  split; intros H a Ha; specialize (H a Ha);
    destruct (Date_valueOf h (get a "date")); try easy.
  now destruct H.
Qed.

(** A record whose date is invalid is in order with no neighbour. *)
Lemma date_ge_valid (a b : obj) :
  date_ge h a b -> valid_date h a /\ valid_date h b.
Proof.
  unfold date_ge, valid_date.
  destruct (Date_valueOf h (get a "date")), (Date_valueOf h (get b "date"));
    intros H; try (exfalso; exact H); split; eauto.
Qed.

End ByDate.

(** ** [Promise.all] *)

Section PromiseAllFacts.
Import PromiseAll.
Local Open Scope nat_scope.
Context {A : Type} (ps : list (promise A)).

Let n := length ps.
Let run (done : list nat) := foldl (settle ps) (init n) done.
Let nF (done : list nat) := length (List.filter (fulfils_at ps) done).

Lemma schedule_length (done : list nat) :
  NoDup done -> (forall i, i ∈ done -> i < n) -> length done <= n.
Proof.
  intros Hnd Hlt.
  enough (length done <= length (seq 0 n)) by (now rewrite length_seq in *).
  apply submseteq_length, NoDup_submseteq; [exact Hnd |].
  intros i Hi. apply elem_of_seq. specialize (Hlt i Hi). lia.
Qed.

Lemma filter_length_le (f : nat -> bool) (l : list nat) :
  length (List.filter f l) <= length l.
Proof. induction l as [|x l IH]; cbn; [lia |]. destruct (f x); cbn; lia. Qed.

Lemma filter_length_lt (f : nat -> bool) (l : list nat) (j : nat) :
  j ∈ l -> f j = false -> length (List.filter f l) < length l.
Proof.
  induction l as [|x l IH]; intros Hj Hf; [inversion Hj |].
  apply elem_of_cons in Hj as [<-|Hj]; cbn.
  - rewrite Hf. pose proof (filter_length_le f l). lia.
  - specialize (IH Hj Hf). destruct (f x); cbn; lia.
Qed.

Lemma filter_snoc (f : nat -> bool) (l : list nat) (j : nat) :
  List.filter f (l ++ [j]) = List.filter f l ++ (if f j then [j] else []).
Proof. rewrite List.filter_app. reflexivity. Qed.

Lemma existsb_snoc (f : nat -> bool) (l : list nat) (j : nat) :
  existsb f (l ++ [j]) = existsb f l || f j.
Proof. rewrite existsb_app. cbn. now rewrite orb_false_r. Qed.

(** The state of the bookkeeping after the promises at the positions
    [done] have settled, in that order. *)
Lemma run_invariant (done : list nat) :
  NoDup done -> (forall i, i ∈ done -> i < n) ->
  length (values (run done)) = n /\
  (forall i, i < n ->
     values (run done) !! i =
     Some (if bool_decide (i ∈ done) then slot_of ps i else None)) /\
  remaining (run done) + nF done = n /\
  (existsb (rejects_at ps) done = true -> is_rejected (result (run done)) = true) /\
  (existsb (rejects_at ps) done = false ->
     result (run done) =
     if nF done =? n then Fulfilled (collect (values (run done))) else Pending).
Proof.
  induction done as [|j done IH] using rev_ind; intros Hnd Hlt.
  - subst run nF. cbn. rewrite length_replicate.
    split; [reflexivity |].
    split; [intros i Hi; now rewrite lookup_replicate_2 |].
    split; [lia |].
    split; [discriminate |].
    intros _. clearbody n. destruct n; reflexivity.
  - apply NoDup_app in Hnd as (Hnd & Hj & _).
    assert (Hjd : j ∉ done) by (intros ?; eapply Hj; [eassumption | left]).
    assert (Hjn : j < n) by (apply Hlt, elem_of_app; right; left).
    assert (Hlen : length done < n).
    { assert (length (done ++ [j]) <= n) as Hl.
      { apply schedule_length; [|exact Hlt].
        apply NoDup_app. repeat split; [exact Hnd | exact Hj | apply NoDup_singleton]. }
      rewrite length_app in Hl. cbn in Hl. lia. }
    destruct IH as (Hvl & Hv & Hr & Hrej & Hres);
      [exact Hnd | intros i Hi; apply Hlt, elem_of_app; now left |].
    assert (HnF : nF done < n)
      by (pose proof (filter_length_le (fulfils_at ps) done); subst nF; cbn; lia).
    assert (Hslots : forall i, i < n -> i <> j ->
              bool_decide (i ∈ done ++ [j]) = bool_decide (i ∈ done)).
    { intros i _ Hij. apply bool_decide_ext.
      rewrite elem_of_app, list_elem_of_singleton. tauto. }
    unfold nF in *. rewrite filter_snoc, length_app, existsb_snoc.
    unfold run in *. rewrite foldl_snoc.
    set (st := foldl (settle ps) (init n) done) in *.
    set (k := length (List.filter (fulfils_at ps) done)) in *.
    destruct (lookup_lt_is_Some_2 ps j Hjn) as [p Hp].
    assert (Hslot : slot_of ps j = value_of p) by (unfold slot_of; now rewrite Hp).
    assert (Hold : forall i, i < n ->
              values st !! i =
              Some (if bool_decide (i ∈ done ++ [j]) then
                      if decide (i = j) then None else slot_of ps i
                    else None)).
    { intros i Hi. rewrite Hv by exact Hi.
      destruct (decide (i = j)) as [->|Hij].
      - rewrite bool_decide_eq_false_2 by exact Hjd. now case_bool_decide.
      - now rewrite Hslots. }
    assert (Hfj : fulfils_at ps j = is_fulfilled p)
      by (unfold fulfils_at; rewrite Hp; now destruct p).
    assert (Hrj : rejects_at ps j = is_rejected p)
      by (unfold rejects_at; rewrite Hp; now destruct p).
    rewrite Hfj, Hrj. unfold settle. rewrite Hp.
    destruct p as [|v|e];
      cbn [values remaining result length app is_fulfilled is_rejected].
    + (* still pending: nothing happens *)
      rewrite orb_false_r, Nat.add_0_r.
      split; [assumption |].
      split.
      { intros i Hi. rewrite Hold by exact Hi.
        destruct (decide (i = j)) as [->|Hij]; [|reflexivity].
        rewrite Hslot. reflexivity. }
      split; [assumption |].
      split; assumption.
    + (* fulfilled with [v] *)
      rewrite orb_false_r.
      split; [now rewrite length_insert |].
      split.
      { intros i Hi. destruct (decide (i = j)) as [->|Hij].
        - rewrite list_lookup_insert_eq by lia.
          rewrite bool_decide_eq_true_2 by (apply elem_of_app; right; left).
          now rewrite Hslot.
        - rewrite list_lookup_insert_ne by congruence.
          rewrite Hold by exact Hi. now destruct (decide (i = j)). }
      split; [lia |].
      split.
      { intros Hex. specialize (Hrej Hex).
        destruct (result st); try discriminate.
        now destruct (remaining st - 1 =? 0). }
      intros Hex. rewrite (Hres Hex).
      destruct (Nat.eqb_spec k n); [lia |].
      destruct (Nat.eqb_spec (remaining st - 1) 0);
        destruct (Nat.eqb_spec (k + 1) n); try lia; reflexivity.
    + (* rejected *)
      rewrite orb_true_r, Nat.add_0_r.
      split; [assumption |].
      split.
      { intros i Hi. rewrite Hold by exact Hi.
        destruct (decide (i = j)) as [->|Hij]; [|reflexivity].
        rewrite Hslot. reflexivity. }
      split; [assumption |].
      split; [|discriminate].
      intros _. destruct (existsb (rejects_at ps) done) eqn:Hex.
      * specialize (Hrej eq_refl). now destruct (result st).
      * rewrite (Hres eq_refl). destruct (Nat.eqb_spec k n); [lia | reflexivity].
Qed.

Lemma collect_Some (vs : list A) : collect (Some <$> vs) = vs.
Proof.
  unfold collect. induction vs as [|v vs IH]; cbn; [reflexivity | now f_equal].
Qed.

Section Schedule.
Variable sched : list nat.
Hypothesis Hsched : sched ≡ₚ seq 0 n.

Lemma sched_NoDup : NoDup sched.
Proof. rewrite Hsched. apply NoDup_seq. Qed.

Lemma sched_elem (i : nat) : i ∈ sched <-> i < n.
Proof. rewrite Hsched, elem_of_seq. lia. Qed.

Lemma sched_length : length sched = n.
Proof. rewrite Hsched. apply length_seq. Qed.

Lemma sched_rejects :
  existsb (rejects_at ps) sched = existsb is_rejected ps.
Proof.
  apply eq_iff_eq_true. rewrite !existsb_exists. split.
  - intros (i & _ & Hi). unfold rejects_at in Hi.
    destruct (ps !! i) as [p|] eqn:Hp; [|discriminate].
    exists p. split; [|now destruct p].
    apply list_elem_of_In, list_elem_of_lookup. eauto.
  - intros (p & Hin & Hp).
    apply list_elem_of_In, list_elem_of_lookup in Hin as [i Hi].
    exists i. split.
    + apply list_elem_of_In, sched_elem. eapply lookup_lt_Some, Hi.
    + unfold rejects_at. rewrite Hi. now destruct p.
Qed.

(** Once all inputs have settled, in whatever order, the state of
    [Promise.all] is the one determined by the inputs. *)
Lemma all_settled : outcome (all sched ps) = settled ps.
Proof.
  destruct (run_invariant sched sched_NoDup) as (Hvl & Hv & Hr & Hrej & Hres).
  { intros i. apply sched_elem. }
  unfold all, settled. fold n. fold (run sched).
  rewrite sched_rejects in Hrej, Hres.
  change (existsb (fun p : promise A => match p with Rejected _ => true | _ => false end) ps)
    with (existsb (@is_rejected A) ps).
  destruct (existsb is_rejected ps) eqn:Hex.
  { specialize (Hrej eq_refl). now destruct (result (run sched)). }
  rewrite (Hres eq_refl). clear Hrej Hres.
  destruct (Nat.eqb_spec (nF sched) n) as [Hall|Hsome].
  - (* every input fulfils *)
    assert (Hful : forall i, i < n -> is_Some (slot_of ps i)).
    { intros i Hi. destruct (fulfils_at ps i) eqn:Hf.
      - unfold fulfils_at in Hf. unfold slot_of.
        destruct (ps !! i) as [[]|]; try discriminate. cbn. eauto.
      - apply sched_elem in Hi.
        pose proof (filter_length_lt _ _ _ Hi Hf) as Hlt.
        fold (nF sched) in Hlt. rewrite sched_length in Hlt. lia. }
    assert (is_Some (mapM value_of ps)) as [vs Hvs].
    { apply mapM_is_Some, Forall_lookup. intros i p Hp.
      destruct (Hful i) as [v Hv']; [eapply lookup_lt_Some, Hp |].
      unfold slot_of in Hv'. rewrite Hp in Hv'. cbn in Hv'. cbn. eauto. }
    rewrite Hvs. cbn. do 2 f_equal.
    apply mapM_Some in Hvs.
    replace (values (run sched)) with (Some <$> vs); [apply collect_Some |].
    apply list_eq. intros i. rewrite list_lookup_fmap.
    destruct (decide (i < n)) as [Hi|Hi].
    + rewrite Hv by exact Hi.
      rewrite bool_decide_eq_true_2 by (now apply sched_elem).
      destruct (lookup_lt_is_Some_2 ps i Hi) as [p Hp].
      destruct (Forall2_lookup_l _ _ _ _ _ Hvs Hp) as (v & Hvi & Hpv).
      rewrite Hvi. unfold slot_of. rewrite Hp. cbn. now rewrite Hpv.
    + rewrite (lookup_ge_None_2 (values (run sched))) by lia.
      rewrite lookup_ge_None_2; [reflexivity |].
      apply Forall2_length in Hvs. fold n in Hvs. lia.
  - (* some input never settles *)
    destruct (mapM value_of ps) as [vs|] eqn:Hvs; [|reflexivity].
    exfalso. apply Hsome. apply mapM_Some in Hvs.
    unfold nF. rewrite <- sched_length. f_equal.
    apply forallb_filter_id, forallb_forall. intros i Hi.
    apply list_elem_of_In, sched_elem in Hi.
    destruct (lookup_lt_is_Some_2 ps i Hi) as [p Hp].
    destruct (Forall2_lookup_l _ _ _ _ _ Hvs Hp) as (v & _ & Hpv).
    unfold fulfils_at. rewrite Hp. now destruct p.
Qed.

End Schedule.

End PromiseAllFacts.

(** ** The aggregator *)

Section Aggregator.
Variable h : host.

Lemma Array_sort_ext {A : Type} (c1 c2 : A -> A -> num) (l : list A) :
  (forall x y, c1 x y = c2 x y) -> Array_sort c1 l = Array_sort c2 l.
Proof.
  intros Hc. induction l as [|x l IH]; cbn [Array_sort]; [reflexivity |].
  rewrite IH. generalize (Array_sort c2 l). intros k.
  induction k as [|y k IHk]; cbn [sort_insert]; [reflexivity |].
  now rewrite Hc, IHk.
Qed.

(** The call continues after [await Promise.all] exactly when that
    promise fulfils. *)
Lemma getAllArticles_outcome (sched : list nat) (includePrivate : bool) :
  outcome (getAllArticles h sched includePrivate) =
  match outcome (PromiseAll.all sched (map (importArticle h) (articleFilenames h))) with
  | Some (Some articles) =>
      Some (Some (Array_sort (by_date_desc h) (kept includePrivate articles)))
  | o => o
  end.
Proof.
  unfold getAllArticles, articleFilenames.
  destruct (PromiseAll.all _ _); reflexivity.
Qed.

Lemma fair_length (sched : list nat) :
  fair h sched ->
  sched ≡ₚ seq 0 (length (map (importArticle h) (articleFilenames h))).
Proof. unfold fair. now rewrite length_map. Qed.

(** Under a fair schedule the state of the call is a function of the
    imports. *)
Lemma getAllArticles_settled (sched : list nat) (includePrivate : bool) :
  fair h sched ->
  outcome (getAllArticles h sched includePrivate) =
  match PromiseAll.settled (map (importArticle h) (articleFilenames h)) with
  | Some (Some articles) =>
      Some (Some (Array_sort (by_date_desc h) (kept includePrivate articles)))
  | o => o
  end.
Proof.
  intros Hfair. rewrite getAllArticles_outcome.
  now rewrite (all_settled _ sched (fair_length sched Hfair)).
Qed.

Lemma outcome_Fulfilled {A : Type} (p : promise A) (a : A) :
  outcome p = Some (Some a) <-> p = Fulfilled a.
Proof. destruct p; cbn; split; intros E; congruence. Qed.

Lemma fulfilled_returned {A : Type} (p : promise (list A)) :
  is_fulfilled p = true -> p = Fulfilled (default [] (returned p)).
Proof. destruct p; cbn; intros E; congruence. Qed.

Lemma outcome_Rejected {A : Type} (p : promise A) :
  outcome p = Some None <-> is_rejected p = true.
Proof. destruct p; cbn; split; intros E; congruence. Qed.

(** When every import fulfils, [Promise.all] hands over the records in
    discovery order. *)
Lemma settled_all_fulfilled (articles : list obj) :
  Forall2 (fun f a => importArticle h f = Fulfilled a) (articleFilenames h) articles ->
  PromiseAll.settled (map (importArticle h) (articleFilenames h)) = Some (Some articles).
Proof.
  generalize (articleFilenames h). intros fs Hall. unfold PromiseAll.settled.
  replace (existsb _ _) with false.
  - replace (mapM _ _) with (Some articles); [reflexivity |].
    symmetry. apply mapM_Some. apply Forall2_fmap_l.
    eapply Forall2_impl; [exact Hall |]. cbn. intros f a ->. reflexivity.
  - symmetry. induction Hall as [|f a fs' as' Hf _ IH]; [reflexivity |].
    cbn. rewrite Hf. exact IH.
Qed.

Lemma settled_fulfilled_inv (articles : list obj) :
  PromiseAll.settled (map (importArticle h) (articleFilenames h)) = Some (Some articles) ->
  Forall2 (fun f a => importArticle h f = Fulfilled a) (articleFilenames h) articles.
Proof.
  generalize (articleFilenames h). intros fs. unfold PromiseAll.settled.
  destruct (existsb _ _); [discriminate |].
  destruct (mapM _ _) as [vs|] eqn:Hvs; [|discriminate].
  intros [= <-]. apply mapM_Some, Forall2_fmap_l in Hvs.
  eapply Forall2_impl; [exact Hvs |]. cbn. intros f a Hfa.
  destruct (importArticle h f); cbn in Hfa; congruence.
Qed.

Lemma settled_rejected (f e : string) :
  In f (articleFilenames h) -> importArticle h f = Rejected e ->
  PromiseAll.settled (map (importArticle h) (articleFilenames h)) = Some None.
Proof.
  intros Hin Hf. unfold PromiseAll.settled.
  replace (existsb _ _) with true; [reflexivity |].
  symmetry. apply existsb_exists. exists (Rejected e). split; [|reflexivity].
  rewrite <- Hf. now apply in_map.
Qed.

(** A returned sequence is the sorted array of the kept records. *)
Lemma getAllArticles_Fulfilled_inv (sched : list nat) (includePrivate : bool)
      (l : list obj) :
  getAllArticles h sched includePrivate = Fulfilled l ->
  exists articles,
    PromiseAll.all sched (map (importArticle h) (articleFilenames h)) = Fulfilled articles /\
    l = Array_sort (by_date_desc h) (kept includePrivate articles).
Proof.
  intros Hl. apply outcome_Fulfilled in Hl. rewrite getAllArticles_outcome in Hl.
  destruct (PromiseAll.all _ _) as [|articles|e]; cbn in Hl; try discriminate.
  exists articles. split; [reflexivity | congruence].
Qed.

End Aggregator.

Section AggregatorFacts.
Variable h : host.

Lemma filter_perm {A : Type} (f : A -> bool) (l l' : list A) :
  Permutation l l' -> Permutation (List.filter f l) (List.filter f l').
Proof.
  induction 1 as [|x l l' _ IH|x y l|l l' l'' _ IH1 _ IH2]; cbn.
  - constructor.
  - destruct (f x); [now constructor | exact IH].
  - destruct (f x), (f y); try reflexivity. apply perm_swap.
  - now transitivity (List.filter f l').
Qed.

Lemma kept_perm (includePrivate : bool) (l l' : list obj) :
  Permutation l l' -> Permutation (kept includePrivate l) (kept includePrivate l').
Proof. destruct includePrivate; cbn; [trivial | apply filter_perm]. Qed.


(** The record [importArticle] builds from a loaded module. *)
Lemma importArticle_loaded (f : string) (m : module_ns) :
  import_ h (specifier f) = Fulfilled m ->
  importArticle h f =
  Fulfilled (spread {[ "slug" := VStr (replace_page_mdx f) ]} (article m)).
Proof. unfold importArticle, specifier. now intros ->. Qed.

Lemma importArticle_rejected (f e : string) :
  import_ h (specifier f) = Rejected e -> importArticle h f = Rejected e.
Proof. unfold importArticle, specifier. now intros ->. Qed.

(** With every import fulfilled the call returns, whatever the records
    hold. *)
Lemma getAllArticles_fulfils (sched : list nat) (includePrivate : bool)
      (articles : list obj) :
  fair h sched ->
  Forall2 (fun f a => importArticle h f = Fulfilled a) (articleFilenames h) articles ->
  getAllArticles h sched includePrivate =
  Fulfilled (Array_sort (by_date_desc h) (kept includePrivate articles)).
Proof.
  intros Hfair Hall. apply outcome_Fulfilled.
  rewrite getAllArticles_settled by exact Hfair.
  now rewrite (settled_all_fulfilled h articles Hall).
Qed.

Lemma getAllArticles_returned_inv (sched : list nat) (includePrivate : bool)
      (l : list obj) :
  fair h sched ->
  getAllArticles h sched includePrivate = Fulfilled l ->
  exists articles,
    Forall2 (fun f a => importArticle h f = Fulfilled a) (articleFilenames h) articles /\
    l = Array_sort (by_date_desc h) (kept includePrivate articles).
Proof.
  intros Hfair Hl. apply outcome_Fulfilled in Hl.
  rewrite getAllArticles_settled in Hl by exact Hfair.
  destruct (PromiseAll.settled _) as [[articles|]|] eqn:Hs; try discriminate.
  exists articles. split; [now apply settled_fulfilled_inv | congruence].
Qed.

(** Adjacent pairs in date order force valid dates, as soon as there is
    a pair. *)
Lemma Sorted_date_ge_valid (l : list obj) :
  (2 <= length l)%nat -> Sorted (date_ge h) l -> Forall (valid_date h) l.
Proof.
  intros Hlen Hs. induction Hs as [|a l Hs IH Hd]; [constructor |].
  destruct Hd as [|b l' Hab]; [cbn in Hlen; lia |].
  apply date_ge_valid in Hab as [Ha Hb]. constructor; [exact Ha |].
  destruct l' as [|c l'']; [now repeat constructor |].
  apply IH. cbn. lia.
Qed.

Lemma derived_slug_read (f : string) (m : module_ns) :
  default ∅ (article m) !! "slug" = None ->
  get (spread {[ "slug" := VStr (replace_page_mdx f) ]} (article m)) "slug"
  = VStr (replace_page_mdx f).
Proof.
  unfold get. destruct (article m) as [a|]; cbn [spread default from_option id].
  - intros Hnone. rewrite lookup_union_r by exact Hnone.
    now rewrite lookup_singleton_eq.
  - intros _. now rewrite lookup_singleton_eq.
Qed.

Lemma glob_no_entry :
  (forall name sub, In (name, Glob.Dir sub) (articles_dir h) ->
                    ~ In ("page.mdx", Glob.File) sub) ->
  articleFilenames h = [].
Proof.
  intros Hnone. unfold articleFilenames.
  destruct (Glob.glob _ _) as [|p l] eqn:Hg; [reflexivity |].
  assert (In p (Glob.glob "*/page.mdx" (articles_dir h))) as Hp
      by (rewrite Hg; now left).
  apply glob_page_mdx in Hp as (name & sub & Hin & _ & Hsub & _).
  now destruct (Hnone name sub Hin).
Qed.

(** [Promise.all([])] is fulfilled from the start and stays so. *)
Lemma all_nil {A : Type} (sched : list nat) :
  PromiseAll.all sched (@nil (promise A)) = Fulfilled [].
Proof.
  unfold PromiseAll.all. cbn [length].
  induction sched as [|i sched IH]; [reflexivity |].
  cbn [foldl]. unfold PromiseAll.settle at 2. rewrite lookup_nil. exact IH.
Qed.

End AggregatorFacts.

(** ** The model on concrete inputs *)

Example parse_2025_04_24 : IsoDate.parse "2025-04-24" = Some 1745452800000.
Proof. reflexivity. Qed.

Example parse_rejects_month_13 : IsoDate.parse "2025-13-01" = None.
Proof. reflexivity. Qed.

Example slug_of_entry :
  replace_page_mdx "hello-world/page.mdx" = "hello-world".
Proof. reflexivity. Qed.

Example slug_of_plain_mdx : replace_page_mdx "notes.mdx" = "notes".
Proof. reflexivity. Qed.

Example slug_needs_final_extension :
  replace_page_mdx "notes.mdx/readme" = "notes.mdx/readme".
Proof. reflexivity. Qed.

Example glob_three_articles :
  articleFilenames Examples.three_articles
  = ["a/page.mdx"; "b/page.mdx"; "c/page.mdx"].
Proof. reflexivity. Qed.

Example glob_skips_what_is_not_a_unit :
  Glob.glob "*/page.mdx" Examples.no_units = [].
Proof. reflexivity. Qed.

(** Three articles dated 2024-01-01, 2025-01-10 and 2025-04-24, the last
    one private: the public listing is [b, a], the full one [c, b, a]. *)
Example listing_public :
  map (fun r : obj => get r "slug")
      (default [] (returned (getAllArticles Examples.three_articles [0; 1; 2]%nat false)))
  = [VStr "b"; VStr "a"].
Proof. vm_compute. reflexivity. Qed.

Example listing_full :
  map (fun r : obj => get r "slug")
      (default [] (returned (getAllArticles Examples.three_articles [1; 2; 0]%nat true)))
  = [VStr "c"; VStr "b"; VStr "a"].
Proof. vm_compute. reflexivity. Qed.

(** The import that never settles leaves the call pending. *)
Example listing_pending :
  getAllArticles Examples.three_articles [0; 1]%nat true = Pending.
Proof. vm_compute. reflexivity. Qed.

(** * The claims *)

Section Claims.
Local Open Scope nat_scope.

(** C6: for every filename [<subdirectory>/page.mdx] the slug that
    [importArticle] derives and puts into the record is the filename
    without its trailing [/page.mdx], that is, the subdirectory name, and
    the record reads that slug unless the metadata overrides it; every
    discovered filename has that form; and the derived slug of a unit
    depends on its filename alone, so that calls which find the unit under
    the same filename derive the same slug, whatever else differs. *)
Theorem C6_slug_is_subdirectory_name :
  (forall d : string, replace_page_mdx (d +:+ "/page.mdx") = d) /\
  (forall h : host,
     Forall (fun f => exists d, f = d +:+ "/page.mdx" /\ replace_page_mdx f = d)
            (articleFilenames h)) /\
  (forall (h : host) (d : string) (m : module_ns),
     import_ h (specifier (d +:+ "/page.mdx")) = Fulfilled m ->
     exists r,
       importArticle h (d +:+ "/page.mdx") = Fulfilled r /\
       r = spread {[ "slug" := VStr d ]} (article m) /\
       (default ∅ (article m) !! "slug" = None -> get r "slug" = VStr d)) /\
  (forall (h1 h2 : host) (f : string) (m1 m2 : module_ns),
     import_ h1 (specifier f) = Fulfilled m1 ->
     import_ h2 (specifier f) = Fulfilled m2 ->
     default ∅ (article m1) !! "slug" = None ->
     default ∅ (article m2) !! "slug" = None ->
     exists r1 r2,
       importArticle h1 f = Fulfilled r1 /\
       importArticle h2 f = Fulfilled r2 /\
       get r1 "slug" = get r2 "slug").
Proof.
  split; [exact replace_page_mdx_entry |]. split; [|split].
  - intros h. eapply Forall_impl; [apply glob_page_mdx_form |].
    cbn. intros f [d ->]. exists d. split; [reflexivity |].
    apply replace_page_mdx_entry.
  - intros h d m Himp.
    exists (spread {[ "slug" := VStr d ]} (article m)).
    split; [|split].
    + rewrite (importArticle_loaded h _ m Himp).
      now rewrite replace_page_mdx_entry.
    + reflexivity.
    + intros Hnone.
      rewrite <- (replace_page_mdx_entry d) at 1 2.
      now apply derived_slug_read.
  - intros h1 h2 f m1 m2 H1 H2 N1 N2.
    exists (spread {[ "slug" := VStr (replace_page_mdx f) ]} (article m1)),
           (spread {[ "slug" := VStr (replace_page_mdx f) ]} (article m2)).
    split; [exact (importArticle_loaded h1 f m1 H1) |].
    split; [exact (importArticle_loaded h2 f m2 H2) |].
    now rewrite !derived_slug_read.
Qed.

(** Unit [c] of the three articles: its record reads the slug [c]; and the
    unit [a], found by two hosts with different metadata and date parsers,
    gets one and the same slug. *)
Lemma C6_witness :
  (exists r,
     importArticle Examples.three_articles "c/page.mdx" = Fulfilled r /\
     get r "slug" = VStr "c") /\
  (exists r1 r2,
     importArticle Examples.missing_date "a/page.mdx" = Fulfilled r1 /\
     importArticle (MoreExamples.in_time_zone 120) "a/page.mdx" = Fulfilled r2 /\
     get r1 "slug" = get r2 "slug").
Proof.
  split.
  - destruct (proj1 (proj2 (proj2 C6_slug_is_subdirectory_name))
                Examples.three_articles "c"
                {| article := Some (Examples.meta "2025-04-24" (Some true)) |})
      as (r & Hr & _ & Hslug).
    + reflexivity.
    + exists r. split; [exact Hr |]. apply Hslug. reflexivity.
  - apply (proj2 (proj2 (proj2 C6_slug_is_subdirectory_name))
             Examples.missing_date (MoreExamples.in_time_zone 120) "a/page.mdx"
             {| article := Some (delete "date" (Examples.meta "2024-01-01" None)) |}
             {| article := Some (Examples.meta "2025-01-10" None) |});
      reflexivity.
Defined.

(** C8, as stated, fails: the entry file of an immediate subdirectory whose
    name begins with a period has the required form and is not matched. *)
Lemma C8_counterexample :
  one_level_entry Examples.dot_directory ".drafts/page.mdx" /\
  ~ In ".drafts/page.mdx" (Glob.glob "*/page.mdx" Examples.dot_directory).
Proof.
  split.
  - exists ".drafts", [("page.mdx", Glob.File)]. cbn. auto.
  - vm_compute. intros [].
Qed.

(** C8, amended: the locator matches exactly the paths made of one immediate
    subdirectory of the content root whose name does not begin with a
    period, followed by [page.mdx], that file being a regular file of the
    subdirectory.  Nothing deeper is matched, and a subdirectory without
    the entry file yields no path and no error. *)
Theorem C8_locator_matches_one_level (d : Glob.dir) (p : string) :
  In p (Glob.glob "*/page.mdx" d) <->
  one_level_entry d p /\
  exists name, p = name +:+ "/page.mdx" /\ Glob.leading_dot name = false.
Proof.
  rewrite glob_page_mdx. unfold one_level_entry. split.
  - intros (name & sub & Hin & Hdot & Hsub & ->). split; eauto 10.
  - intros [(name & sub & Hin & Hsub & ->) (name' & Hp & Hdot)].
    assert (name = name') as <-.
    { rewrite <- (replace_page_mdx_entry name), Hp. apply replace_page_mdx_entry. }
    eauto 10.
Qed.

(** C9: the record is the object [{ slug: <derived>, ...article }]; when the
    metadata export has a [slug] property of its own, the record carries
    that value, and the derived slug is in the record only if the two
    coincide. *)
Theorem C9_metadata_slug_overrides (h : host) (f : string) (m : module_ns)
        (a : obj) (v : value) :
  import_ h (specifier f) = Fulfilled m ->
  article m = Some a ->
  a !! "slug" = Some v ->
  exists r,
    importArticle h f = Fulfilled r /\
    r = a ∪ {[ "slug" := VStr (replace_page_mdx f) ]} /\
    get r "slug" = v /\
    (v <> VStr (replace_page_mdx f) -> get r "slug" <> VStr (replace_page_mdx f)).
Proof.
  intros Himp Ha Hslug.
  exists (a ∪ {[ "slug" := VStr (replace_page_mdx f) ]}).
  split; [rewrite (importArticle_loaded h f m Himp), Ha; reflexivity |].
  split; [reflexivity |].
  assert (get (a ∪ {[ "slug" := VStr (replace_page_mdx f) ]}) "slug" = v) as Hget.
  { unfold get. now rewrite (lookup_union_Some_l _ _ _ _ Hslug). }
  split; [exact Hget | now rewrite Hget].
Qed.

(** The host whose only article declares the slug [custom]. *)
Lemma C9_witness :
  exists r,
    importArticle Examples.own_slug "a/page.mdx" = Fulfilled r /\
    get r "slug" = VStr "custom".
Proof.
  destruct (C9_metadata_slug_overrides Examples.own_slug "a/page.mdx"
              {| article := Some (<[ "slug" := VStr "custom" ]>
                                    (Examples.meta "2024-01-01" None)) |}
              (<[ "slug" := VStr "custom" ]> (Examples.meta "2024-01-01" None))
              (VStr "custom"))
    as (r & Hr & _ & Hslug & _).
  - reflexivity.
  - reflexivity.
  - reflexivity.
  - exists r. split; [exact Hr | exact Hslug].
Defined.

(** C7: when no immediate subdirectory of the content root holds the entry
    file (in particular when the root is empty), the call fulfils with the
    empty sequence. *)
Theorem C7_no_units_empty_sequence (h : host) (sched : list nat)
        (includePrivate : bool) :
  (forall name sub, In (name, Glob.Dir sub) (articles_dir h) ->
                    ~ In ("page.mdx", Glob.File) sub) ->
  articleFilenames h = [] /\
  getAllArticles h sched includePrivate = Fulfilled [].
Proof.
  intros Hnone. pose proof (glob_no_entry h Hnone) as Hfiles.
  split; [exact Hfiles |].
  unfold getAllArticles. fold (articleFilenames h). rewrite Hfiles.
  cbn [map]. rewrite all_nil. now destruct includePrivate.
Qed.

(** A root without any unit, and the empty root. *)
Lemma C7_witness :
  getAllArticles
    {| articles_dir := Examples.no_units;
       import_ := Examples.loader [];
       Date_parse := IsoDate.parse |} [] false = Fulfilled [] /\
  getAllArticles
    {| articles_dir := [];
       import_ := Examples.loader [];
       Date_parse := IsoDate.parse |} [] true = Fulfilled [].
Proof.
  split.
  - apply (C7_no_units_empty_sequence
             {| articles_dir := Examples.no_units;
                import_ := Examples.loader [];
                Date_parse := IsoDate.parse |} [] false).
    cbn. intros name sub [E|[E|[E|[]]]] Hsub; inversion E; subst; cbn in Hsub.
    + exact Hsub.
    + destruct Hsub as [E'|[]]. discriminate E'.
  - apply (C7_no_units_empty_sequence
             {| articles_dir := [];
                import_ := Examples.loader [];
                Date_parse := IsoDate.parse |} [] true).
    intros name sub [].
Defined.

(** C4: if the import of any one content unit rejects, the call rejects and
    returns no sequence, whatever the other units are and in whatever order
    the imports settle. *)
Theorem C4_one_rejection_fails_the_call (h : host) (sched : list nat)
        (includePrivate : bool) (f e : string) :
  fair h sched ->
  In f (articleFilenames h) ->
  import_ h (specifier f) = Rejected e ->
  is_rejected (getAllArticles h sched includePrivate) = true /\
  returned (getAllArticles h sched includePrivate) = None.
Proof.
  intros Hfair Hin Himp.
  assert (is_rejected (getAllArticles h sched includePrivate) = true) as Hrej.
  { apply outcome_Rejected. rewrite getAllArticles_settled by exact Hfair.
    now rewrite (settled_rejected h f e Hin (importArticle_rejected h f e Himp)). }
  split; [exact Hrej |].
  now destruct (getAllArticles h sched includePrivate).
Qed.

(** Two units, the second failing to import. *)
Lemma C4_witness :
  is_rejected (getAllArticles Examples.broken_import [0; 1] true) = true /\
  returned (getAllArticles Examples.broken_import [0; 1] true) = None.
Proof.
  apply (C4_one_rejection_fails_the_call Examples.broken_import [0; 1] true
           "b/page.mdx" "SyntaxError").
  - unfold fair. vm_compute. apply Permutation_refl.
  - vm_compute. right. left. reflexivity.
  - reflexivity.
Defined.




(** C2: [getAllArticles(false)] returns exactly the records of
    [getAllArticles(true)] whose [isPrivate] is falsy, none duplicated and
    none dropped, and [getAllArticles(true)] retains every loaded record. *)
Theorem C2_public_listing_is_filtered_full_listing (h : host)
        (schedT schedF : list nat) (full : list obj) :
  fair h schedT -> fair h schedF ->
  getAllArticles h schedT true = Fulfilled full ->
  (exists articles,
     Forall2 (fun f a => importArticle h f = Fulfilled a) (articleFilenames h) articles /\
     Permutation full articles) /\
  (exists public,
     getAllArticles h schedF false = Fulfilled public /\
     Permutation public
       (List.filter (fun a => negb (truthy (get a "isPrivate"))) full)).
Proof.
  intros HT HF Hfull.
  destruct (getAllArticles_returned_inv h schedT true full HT Hfull)
    as (articles & Hall & ->).
  cbn [kept]. split.
  { exists articles. split; [exact Hall | apply Array_sort_perm]. }
  rewrite (getAllArticles_fulfils h schedF false articles HF Hall).
  eexists. split; [reflexivity |].
  rewrite Array_sort_perm. cbn [kept]. apply filter_perm.
  symmetry. apply Array_sort_perm.
Qed.

(** The three articles, loaded in two different orders. *)
Lemma C2_witness :
  exists public,
    getAllArticles Examples.three_articles [2; 0; 1] false = Fulfilled public /\
    Permutation public
      (List.filter (fun a => negb (truthy (get a "isPrivate")))
         (default [] (returned (getAllArticles Examples.three_articles [0; 1; 2] true)))).
Proof.
  apply (C2_public_listing_is_filtered_full_listing
           Examples.three_articles [0; 1; 2] [2; 0; 1]
           (default [] (returned (getAllArticles Examples.three_articles [0; 1; 2] true)))).
  - unfold fair. vm_compute. apply Permutation_refl.
  - unfold fair. vm_compute.
    eapply perm_trans; [apply perm_swap | apply perm_skip, perm_swap].
  - apply fulfilled_returned. vm_compute. reflexivity.
Defined.

(** C3, as stated, fails: a returned sequence can hold a record whose
    [date] is not a valid time value (here a record with no [date] at all),
    and no comparison [date(a) >= date(b)] with it holds. *)
Lemma C3_counterexample :
  exists l,
    getAllArticles Examples.missing_date [0; 1] true = Fulfilled l /\
    ~ Sorted (date_ge Examples.missing_date) l.
Proof.
  exists (default [] (returned (getAllArticles Examples.missing_date [0; 1] true))).
  split; [apply fulfilled_returned; vm_compute; reflexivity |].
  intros Hs. apply Sorted_date_ge_valid in Hs.
  - apply valid_dateb_spec in Hs. vm_compute in Hs. discriminate Hs.
  - vm_compute. apply le_n.
Qed.

(** C3, amended: in every sequence returned by [getAllArticles] in which
    the [date] of every record is a valid time value, every adjacent pair
    [(a, b)] satisfies [date(a) >= date(b)]. *)
Theorem C3_sorted_by_date_descending (h : host) (sched : list nat)
        (includePrivate : bool) (l : list obj) :
  getAllArticles h sched includePrivate = Fulfilled l ->
  Forall (valid_date h) l ->
  Sorted (date_ge h) l.
Proof.
  intros Hl Hvalid.
  destruct (getAllArticles_Fulfilled_inv h sched includePrivate l Hl)
    as (articles & _ & ->).
  apply sort_by_date_Sorted.
  now rewrite Array_sort_perm in Hvalid.
Qed.

(** The three articles, all dated, loaded out of order. *)
Lemma C3_witness :
  Sorted (date_ge Examples.three_articles)
         (default [] (returned (getAllArticles Examples.three_articles [2; 0; 1] true))).
Proof.
  apply (C3_sorted_by_date_descending Examples.three_articles [2; 0; 1] true).
  - apply fulfilled_returned. vm_compute. reflexivity.
  - apply valid_dateb_spec. vm_compute. reflexivity.
Defined.

(** C5, as stated, fails: the filenames and the metadata alone do not fix
    the result.  The sort key is [+new Date(date)], and a date-time string
    without offset is read as local time: the same two units come back in
    one order on an engine at UTC and in the other on an engine two hours
    ahead. *)
Lemma C5_counterexample :
  articleFilenames (MoreExamples.in_time_zone 0)
    = articleFilenames (MoreExamples.in_time_zone 120) /\
  (forall s, import_ (MoreExamples.in_time_zone 0) s
             = import_ (MoreExamples.in_time_zone 120) s) /\
  fair (MoreExamples.in_time_zone 0) [0; 1] /\
  fair (MoreExamples.in_time_zone 120) [0; 1] /\
  option_map (map (fun r : obj => get r "slug"))
             (returned (getAllArticles (MoreExamples.in_time_zone 0) [0; 1] true))
    = Some [VStr "b"; VStr "a"] /\
  option_map (map (fun r : obj => get r "slug"))
             (returned (getAllArticles (MoreExamples.in_time_zone 120) [0; 1] true))
    = Some [VStr "a"; VStr "b"] /\
  returned (getAllArticles (MoreExamples.in_time_zone 0) [0; 1] true)
    <> returned (getAllArticles (MoreExamples.in_time_zone 120) [0; 1] true).
Proof.
  split; [reflexivity |]. split; [reflexivity |].
  split; [unfold fair; vm_compute; apply Permutation_refl |].
  split; [unfold fair; vm_compute; apply Permutation_refl |].
  split; [vm_compute; reflexivity |]. split; [vm_compute; reflexivity |].
  intros E.
  apply (f_equal (option_map (map (fun r : obj => get r "slug")))) in E.
  vm_compute in E. discriminate E.
Qed.

(** C5, amended: the state of the call, and with it the returned sequence,
    is a function of the discovered filenames, of what each unit's module
    declares and of the engine's date parsing: two runs that agree on these
    agree on the result element for element, in whatever order the imports
    settle in either run.  Records with equal dates therefore keep the same
    relative order across runs. *)
Theorem C5_result_independent_of_load_order (h1 h2 : host)
        (sched1 sched2 : list nat) (includePrivate : bool) :
  articleFilenames h1 = articleFilenames h2 ->
  (forall f, In f (articleFilenames h1) ->
             import_ h1 (specifier f) = import_ h2 (specifier f)) ->
  (forall s, Date_parse h1 s = Date_parse h2 s) ->
  fair h1 sched1 -> fair h2 sched2 ->
  outcome (getAllArticles h1 sched1 includePrivate)
  = outcome (getAllArticles h2 sched2 includePrivate) /\
  returned (getAllArticles h1 sched1 includePrivate)
  = returned (getAllArticles h2 sched2 includePrivate).
Proof.
  intros Hfiles Himp Hdate Hf1 Hf2.
  assert (outcome (getAllArticles h1 sched1 includePrivate)
          = outcome (getAllArticles h2 sched2 includePrivate)) as Hout.
  { rewrite !getAllArticles_settled by assumption.
    rewrite <- Hfiles.
    replace (map (importArticle h2) (articleFilenames h1))
      with (map (importArticle h1) (articleFilenames h1)).
    - destruct (PromiseAll.settled _) as [[articles|]|]; try reflexivity.
      do 2 f_equal. apply Array_sort_ext. intros a z.
      unfold by_date_desc.
      assert (forall v, Date_valueOf h1 v = Date_valueOf h2 v) as Hv
          by (intros []; cbn; try reflexivity; now rewrite Hdate).
      now rewrite !Hv.
    - apply map_ext_in. intros f Hin. unfold importArticle.
      fold (specifier f). now rewrite (Himp f Hin). }
  split; [exact Hout |].
  destruct (getAllArticles h1 sched1 includePrivate),
           (getAllArticles h2 sched2 includePrivate); cbn in *; congruence.
Qed.

(** The three articles under two settle orders. *)
Lemma C5_witness :
  returned (getAllArticles Examples.three_articles [0; 1; 2] false)
  = returned (getAllArticles Examples.three_articles [2; 0; 1] false).
Proof.
  apply (C5_result_independent_of_load_order
           Examples.three_articles Examples.three_articles [0; 1; 2] [2; 0; 1] false).
  - reflexivity.
  - intros f _. reflexivity.
  - intros s. reflexivity.
  - unfold fair. vm_compute. apply Permutation_refl.
  - unfold fair. vm_compute.
    eapply perm_trans; [apply perm_swap | apply perm_skip, perm_swap].
Defined.

(** C10: the sort step is total.  The comparator is the difference of the
    two time values and is NaN exactly when one of the dates is not a valid
    time value; the sort reads NaN as +0.  So whenever the imports fulfil,
    the call returns, and what it returns is a permutation of the kept
    records, whatever their [date] fields hold.  The result is in
    descending date order if every returned date is valid, and, as soon as
    it has two records, only then. *)
Theorem C10_sort_is_total_permutation (h : host) (sched : list nat)
        (includePrivate : bool) (articles : list obj) :
  fair h sched ->
  Forall2 (fun f a => importArticle h f = Fulfilled a) (articleFilenames h) articles ->
  (forall a z : obj,
     by_date_desc h a z = None <->
     Date_valueOf h (get a "date") = None \/ Date_valueOf h (get z "date") = None) /\
  SortCompare None = 0%Z /\
  exists l,
    getAllArticles h sched includePrivate = Fulfilled l /\
    Permutation l (kept includePrivate articles) /\
    (Forall (valid_date h) l -> Sorted (date_ge h) l) /\
    (2 <= length l -> Sorted (date_ge h) l -> Forall (valid_date h) l).
Proof.
  intros Hfair Hall. split; [|split; [reflexivity |]].
  - intros a z. unfold by_date_desc, sub.
    destruct (Date_valueOf h (get z "date")), (Date_valueOf h (get a "date"));
      split; intros H; try discriminate; auto; destruct H; discriminate.
  - exists (Array_sort (by_date_desc h) (kept includePrivate articles)).
    split; [now apply getAllArticles_fulfils |].
    split; [apply Array_sort_perm |].
    split.
    + intros Hvalid. apply sort_by_date_Sorted.
      now rewrite Array_sort_perm in Hvalid.
    + apply Sorted_date_ge_valid.
Qed.

(** Two units, one without a [date]: the call still returns both. *)
Lemma C10_witness :
  exists l,
    getAllArticles Examples.missing_date [1; 0] true = Fulfilled l /\
    Permutation l
      (omap (fun f => PromiseAll.value_of (importArticle Examples.missing_date f))
            (articleFilenames Examples.missing_date)).
Proof.
  destruct (C10_sort_is_total_permutation Examples.missing_date [1; 0] true
              (omap (fun f => PromiseAll.value_of (importArticle Examples.missing_date f))
                    (articleFilenames Examples.missing_date)))
    as (_ & _ & l & Hl & Hperm & _).
  - unfold fair. vm_compute. apply perm_swap.
  - change (articleFilenames Examples.missing_date) with ["a/page.mdx"; "b/page.mdx"].
    repeat constructor.
  - exists l. split; [exact Hl | exact Hperm].
Defined.

End Claims.

(** * Further properties of the code *)

Section SlugRegex.

Lemma replace_page_mdx_step (c : ascii) (s : string) :
  replace_page_mdx (String c s) =
  if String.eqb (String c s) "/page.mdx" || String.eqb (String c s) ".mdx"
  then "" else String c (replace_page_mdx s).
Proof. reflexivity. Qed.

Lemma append_cons_inv (c : ascii) (s d t : string) :
  String c s = d +:+ t ->
  (d = "" /\ String c s = t) \/ (exists d', d = String c d' /\ s = d' +:+ t).
Proof.
  destruct d as [|c' d']; intros E.
  - left. split; [reflexivity | exact E].
  - right. change (String c s = String c' (d' +:+ t)) in E.
    injection E as -> ->. now exists d'.
Qed.

End SlugRegex.

(** X1: what the slug expression does to an arbitrary string.  Exactly one
    of three cases applies: the string ends in [/page.mdx] and loses that;
    it ends in [.mdx] not preceded by [/page] and loses [.mdx]; or it does
    not end in [.mdx] and is returned unchanged. *)
Theorem replace_page_mdx_cases (s : string) :
  (exists d, s = d +:+ "/page.mdx" /\ replace_page_mdx s = d) \/
  (exists d, s = d +:+ ".mdx" /\ (forall d', d <> d' +:+ "/page") /\
             replace_page_mdx s = d) \/
  ((forall d, s <> d +:+ ".mdx") /\ replace_page_mdx s = s).
Proof.
  induction s as [|c s IH].
  - right. right. split; [|reflexivity]. intros [|c d] E; discriminate E.
  - rewrite replace_page_mdx_step.
    destruct (String.eqb_spec (String c s) "/page.mdx") as [E1|N1].
    { left. exists "". split; [exact E1 | reflexivity]. }
    destruct (String.eqb_spec (String c s) ".mdx") as [E2|N2].
    { right. left. exists "". split; [exact E2 |]. split; [|reflexivity].
      intros [|c' d'] E; discriminate E. }
    cbn [orb]. destruct IH as [(d & -> & Hd)|[(d & -> & Hno & Hd)|(Hno & Hd)]].
    + left. exists (String c d). split; [reflexivity | now rewrite Hd].
    + right. left. exists (String c d). split; [reflexivity |].
      split; [|now rewrite Hd].
      intros d' E. apply append_cons_inv in E as [[-> E]|(d'' & -> & E)].
      * apply N1. injection E as -> ->. reflexivity.
      * now apply (Hno d'').
    + right. right. split; [|now rewrite Hd].
      intros d E. apply append_cons_inv in E as [[-> E]|(d'' & -> & E)].
      * now apply N2.
      * now apply (Hno d'').
Qed.

Section Units.
Import Glob.

Lemma existsb_absent (name : string) (sub : dir) :
  ~ In name (map fst sub) ->
  existsb (fun e : string * node => String.eqb name (fst e) && is_file (snd e)) sub
  = false.
Proof.
  induction sub as [|[n nd] sub IH]; intros Hn; [reflexivity |].
  cbn [existsb fst snd]. cbn [map fst] in Hn.
  destruct (String.eqb_spec name n) as [->|_].
  - exfalso. apply Hn. now left.
  - cbn [andb orb]. apply IH. intros Hin. apply Hn. now right.
Qed.

(** With distinct names a directory contributes its entry file once, or
    not at all. *)
Lemma walk_entry_unique (prefix : string) (sub : dir) :
  List.NoDup (map fst sub) ->
  walk ["page.mdx"] prefix sub =
  if has_entry (Dir sub) then [prefix +:+ "page.mdx"] else [].
Proof.
  cbn [walk has_entry].
  induction sub as [|[n nd] sub IH]; intros Hnd; [reflexivity |].
  cbn [flat_map existsb fst snd]. cbn [map fst] in Hnd.
  apply List.NoDup_cons_iff in Hnd as [Hn Hnd].
  rewrite segment_match_page_mdx.
  destruct (String.eqb_spec "page.mdx" n) as [<-|_].
  - rewrite IH by exact Hnd. rewrite (existsb_absent _ _ Hn).
    destruct nd; reflexivity.
  - cbn [andb orb app]. now apply IH.
Qed.

Lemma glob_units (d : dir) :
  (forall name sub, In (name, Dir sub) d -> List.NoDup (map fst sub)) ->
  glob "*/page.mdx" d =
  map (fun e : string * node => fst e +:+ "/page.mdx") (List.filter is_unit d).
Proof.
  unfold glob. change (split_slash "" "*/page.mdx") with ["*"; "page.mdx"].
  induction d as [|[name nd] d IH]; intros Hsub; [reflexivity |].
  cbn [walk] in IH |- *. cbn [flat_map List.filter fst snd].
  rewrite IH by (intros n s Hin; apply (Hsub n s); now right).
  destruct nd as [|sub].
  - replace (is_unit (name, File)) with false
      by (unfold is_unit; cbn; now rewrite andb_false_r).
    reflexivity.
  - rewrite segment_match_star.
    change (is_unit (name, Dir sub))
      with (negb (leading_dot name) && has_entry (Dir sub)).
    destruct (leading_dot name); cbn [negb andb]; [reflexivity |].
    change (walk ["page.mdx"] ("" +:+ name +:+ "/") sub ++
            map (fun e : string * node => fst e +:+ "/page.mdx") (List.filter is_unit d) =
            map (fun e : string * node => fst e +:+ "/page.mdx")
                (if has_entry (Dir sub) then (name, Dir sub) :: List.filter is_unit d
                 else List.filter is_unit d)).
    rewrite walk_entry_unique by (apply (Hsub name sub); now left).
    change ("" +:+ name +:+ "/") with (name +:+ "/"). rewrite append_assoc.
    destruct (has_entry (Dir sub)); reflexivity.
Qed.

Lemma filter_names_NoDup (f : string * node -> bool) (d : dir) :
  List.NoDup (map fst d) -> List.NoDup (map fst (List.filter f d)).
Proof.
  induction d as [|e d IH]; intros Hnd; [constructor |].
  cbn [map] in Hnd. apply List.NoDup_cons_iff in Hnd as [Hn Hnd].
  cbn [List.filter]. destruct (f e); [|now apply IH].
  cbn [map]. constructor; [|now apply IH].
  intros Hin. apply Hn. apply in_map_iff in Hin as (e' & He' & Hin).
  apply filter_In in Hin as [Hin _]. rewrite <- He'. now apply in_map.
Qed.

Lemma mdx_extension_append (p s : string) :
  mdx_extension s = true -> mdx_extension (p +:+ s) = true.
Proof.
  intros Hs. induction p as [|c p IH]; [exact Hs |].
  change (mdx_extension (String c (p +:+ s)) = true).
  cbn [mdx_extension]. rewrite IH. apply orb_true_r.
Qed.

Lemma glob_units_slugs (h : host) :
  (forall name sub, In (name, Glob.Dir sub) (articles_dir h) ->
                    List.NoDup (map fst sub)) ->
  articleFilenames h =
    map (fun e : string * Glob.node => fst e +:+ "/page.mdx")
        (List.filter is_unit (articles_dir h)) /\
  map replace_page_mdx (articleFilenames h) =
    map fst (List.filter is_unit (articles_dir h)).
Proof.
  intros Hsub. unfold articleFilenames. rewrite (glob_units _ Hsub).
  split; [reflexivity |].
  rewrite List.map_map. apply map_ext. intros e. apply replace_page_mdx_entry.
Qed.

End Units.

(** X3: two different discovered filenames never derive the same slug. *)
Theorem slug_injective_on_units (h : host) (f1 f2 : string) :
  In f1 (articleFilenames h) -> In f2 (articleFilenames h) ->
  f1 <> f2 ->
  replace_page_mdx f1 <> replace_page_mdx f2.
Proof.
  intros H1 H2 Hne E. apply Hne.
  pose proof (proj1 (List.Forall_forall _ _) (glob_page_mdx_form (articles_dir h))) as Hform.
  destruct (Hform f1 H1) as [d1 ->]. destruct (Hform f2 H2) as [d2 ->].
  rewrite !replace_page_mdx_entry in E. now rewrite E.
Qed.

Lemma slug_injective_on_units_witness :
  replace_page_mdx "a/page.mdx" <> replace_page_mdx "c/page.mdx".
Proof.
  apply (slug_injective_on_units Examples.three_articles "a/page.mdx" "c/page.mdx").
  - vm_compute. tauto.
  - vm_compute. tauto.
  - discriminate.
Defined.

(** X4: when the names in the content root, and in each of its
    subdirectories, are pairwise distinct, no filename and no derived slug
    occurs twice in a listing. *)
Theorem slugs_are_unique (h : host) :
  distinct_names (articles_dir h) ->
  List.NoDup (articleFilenames h) /\
  List.NoDup (map replace_page_mdx (articleFilenames h)).
Proof.
  intros [Hroot Hsub].
  destruct (glob_units_slugs h Hsub) as [Hfiles Hslugs].
  assert (List.NoDup (map replace_page_mdx (articleFilenames h))) as Hnd
      by (rewrite Hslugs; now apply filter_names_NoDup).
  split; [|exact Hnd].
  eapply List.NoDup_map_inv, Hnd.
Qed.

Lemma slugs_are_unique_witness :
  List.NoDup (map replace_page_mdx (articleFilenames Examples.three_articles)).
Proof.
  apply (slugs_are_unique Examples.three_articles).
  split.
  - vm_compute. repeat constructor; cbn; intuition discriminate.
  - cbn. intros name sub [E|[E|[E|[]]]]; inversion E; subst;
      repeat constructor; cbn; tauto.
Defined.

(** X5: every discovered filename, and the specifier it is imported under,
    carries the extension the MDX loader of [next.config.mjs] is configured
    for, so every content unit is compiled by that loader. *)
Theorem units_match_mdx_loader (h : host) :
  Forall (fun f => mdx_extension f = true /\ mdx_extension (specifier f) = true)
         (articleFilenames h).
Proof.
  eapply Forall_impl; [apply (glob_page_mdx_form (articles_dir h)) |].
  cbn. intros f [d ->]. split.
  - now apply mdx_extension_append.
  - unfold specifier. now do 2 apply mdx_extension_append.
Qed.

(** X6: the record of a loaded unit carries every metadata property other
    than [slug] exactly as the module declares it, adds none, and always
    has a [slug]: the metadata's own if it declares one, the derived one
    otherwise. *)
Theorem importArticle_keeps_metadata (h : host) (f : string) (m : module_ns) :
  import_ h (specifier f) = Fulfilled m ->
  exists r,
    importArticle h f = Fulfilled r /\
    (forall k, k <> "slug" -> r !! k = default ∅ (article m) !! k) /\
    r !! "slug" =
      Some (default (VStr (replace_page_mdx f)) (default ∅ (article m) !! "slug")).
Proof.
  intros Himp. eexists. split; [exact (importArticle_loaded h f m Himp) |].
  destruct (article m) as [a|]; cbn [spread default from_option id].
  - split.
    + intros k Hk. apply lookup_union_l. now apply lookup_singleton_ne.
    + destruct (a !! "slug") as [v|] eqn:Hslug; cbn [default].
      * now apply lookup_union_Some_l.
      * rewrite lookup_union_r by exact Hslug. apply lookup_singleton_eq.
  - split.
    + intros k Hk. rewrite lookup_empty. now apply lookup_singleton_ne.
    + rewrite lookup_empty. apply lookup_singleton_eq.
Qed.

Lemma importArticle_keeps_metadata_witness :
  exists r,
    importArticle Examples.three_articles "c/page.mdx" = Fulfilled r /\
    r !! "isPrivate" = Some (VBool true) /\
    r !! "slug" = Some (VStr "c").
Proof.
  destruct (importArticle_keeps_metadata Examples.three_articles "c/page.mdx"
              {| article := Some (Examples.meta "2025-04-24" (Some true)) |})
    as (r & Hr & Hk & Hslug).
  - reflexivity.
  - exists r. split; [exact Hr |]. split.
    + rewrite Hk by discriminate. reflexivity.
    + rewrite Hslug. reflexivity.
Defined.

Section PromiseAllOrder.
Import PromiseAll.
Local Open Scope nat_scope.
Context {A : Type} (ps : list (promise A)).

(** A settled promise keeps its state. *)
Lemma rejected_stays (e : string) (sched : list nat) (st : state A) :
  result st = Rejected e ->
  result (foldl (settle ps) st sched) = Rejected e.
Proof.
  revert st. induction sched as [|i sched IH]; intros st Hst; [exact Hst |].
  cbn [foldl]. apply IH. unfold settle.
  destruct (ps !! i) as [[|v|e']|]; cbn [result]; try exact Hst.
  - rewrite Hst. now destruct (remaining st - 1 =? 0).
  - now rewrite Hst.
Qed.

Lemma first_rejection_split (sched : list nat) (e : string) :
  first_rejection ps sched = Some e ->
  exists pre j post,
    sched = pre ++ j :: post /\
    existsb (rejects_at ps) pre = false /\
    ps !! j = Some (Rejected e).
Proof.
  induction sched as [|i sched IH]; [discriminate |].
  cbn [first_rejection]. intros He.
  destruct (ps !! i) as [p|] eqn:Hp.
  - destruct p as [|v|e'].
    + destruct (IH He) as (pre & j & post & -> & Hpre & Hj).
      exists (i :: pre), j, post. split; [reflexivity |]. split; [|exact Hj].
      cbn [existsb]. unfold rejects_at at 1. now rewrite Hp.
    + destruct (IH He) as (pre & j & post & -> & Hpre & Hj).
      exists (i :: pre), j, post. split; [reflexivity |]. split; [|exact Hj].
      cbn [existsb]. unfold rejects_at at 1. now rewrite Hp.
    + injection He as ->. exists [], i, sched. now repeat split.
  - destruct (IH He) as (pre & j & post & -> & Hpre & Hj).
    exists (i :: pre), j, post. split; [reflexivity |]. split; [|exact Hj].
    cbn [existsb]. unfold rejects_at at 1. now rewrite Hp.
Qed.

(** [Promise.all] rejects as soon as an input rejects, with the reason of
    the first one to do so. *)
Lemma all_first_rejection (sched : list nat) (e : string) :
  NoDup sched -> (forall i, i ∈ sched -> i < length ps) ->
  first_rejection ps sched = Some e ->
  all sched ps = Rejected e.
Proof.
  intros Hnd Hlt He.
  destruct (first_rejection_split sched e He) as (pre & j & post & -> & Hpre & Hj).
  assert (NoDup (pre ++ [j])) as Hnd'.
  { change (pre ++ j :: post) with (pre ++ [j] ++ post) in Hnd.
    rewrite app_assoc in Hnd. now apply NoDup_app in Hnd as [Hnd _]. }
  assert (length (pre ++ [j]) <= length ps) as Hlen.
  { apply schedule_length; [exact Hnd' |].
    intros i Hi. apply Hlt. apply elem_of_app in Hi as [Hi|Hi%list_elem_of_singleton].
    - apply elem_of_app. now left.
    - subst i. apply elem_of_app. right. left. }
  rewrite length_app in Hlen. cbn [length] in Hlen.
  destruct (run_invariant ps pre) as (_ & _ & _ & _ & Hres).
  { now apply NoDup_app in Hnd' as [Hnd' _]. }
  { intros i Hi. apply Hlt, elem_of_app. now left. }
  specialize (Hres Hpre).
  pose proof (filter_length_le ps (fulfils_at ps) pre) as Hle.
  destruct (Nat.eqb_spec (length (List.filter (fulfils_at ps) pre)) (length ps)) as [E|_];
    [lia |].
  unfold all. rewrite foldl_app. cbn [foldl].
  set (st := foldl (settle ps) (init (length ps)) pre) in *.
  apply rejected_stays. unfold settle. rewrite Hj. cbn [result].
  now rewrite Hres.
Qed.

(** [Promise.all] fulfils only once every input has fulfilled. *)
Lemma all_fulfilled_complete (sched : list nat) (vs : list A) :
  NoDup sched -> (forall i, i ∈ sched -> i < length ps) ->
  all sched ps = Fulfilled vs ->
  sched ≡ₚ seq 0 (length ps).
Proof.
  intros Hnd Hlt Hall.
  destruct (run_invariant ps sched Hnd Hlt) as (_ & _ & _ & Hrej & Hres).
  unfold all in Hall.
  destruct (existsb (rejects_at ps) sched) eqn:Hex.
  { specialize (Hrej eq_refl). rewrite Hall in Hrej. discriminate Hrej. }
  rewrite (Hres eq_refl) in Hall.
  destruct (Nat.eqb_spec (length (List.filter (fulfils_at ps) sched)) (length ps))
    as [E|_]; [|discriminate Hall].
  pose proof (filter_length_le ps (fulfils_at ps) sched) as Hle.
  apply submseteq_length_Permutation; [|rewrite length_seq; lia].
  apply NoDup_submseteq; [exact Hnd |].
  intros i Hi. apply elem_of_seq. specialize (Hlt i Hi). lia.
Qed.

End PromiseAllOrder.

(** X7: the call rejects as soon as one import rejects, before the other
    imports have settled, and with the reason of the first import to
    reject. *)
Theorem getAllArticles_first_rejection (h : host) (sched : list nat)
        (includePrivate : bool) (e : string) :
  partial_schedule h sched ->
  first_rejection (map (importArticle h) (articleFilenames h)) sched = Some e ->
  getAllArticles h sched includePrivate = Rejected e.
Proof.
  intros [Hnd Hlt] He. unfold getAllArticles. fold (articleFilenames h).
  rewrite (all_first_rejection _ sched e); [reflexivity | exact Hnd | | exact He].
  intros i Hi. rewrite length_map. now apply Hlt.
Qed.

(** Two units; the second import has rejected, the first is still out. *)
Lemma getAllArticles_first_rejection_witness :
  getAllArticles Examples.broken_import [1%nat] false = Rejected "SyntaxError".
Proof.
  apply (getAllArticles_first_rejection Examples.broken_import [1%nat] false).
  - split; [repeat constructor; intros H; inversion H |].
    intros i Hi. apply list_elem_of_singleton in Hi as ->. vm_compute. lia.
  - vm_compute. reflexivity.
Defined.

(** X8: the call never returns a partial listing.  If it has returned a
    sequence, then every import has settled and fulfilled, and the sequence
    is the sorted array of the kept records of all units. *)
Theorem getAllArticles_never_partial (h : host) (sched : list nat)
        (includePrivate : bool) (l : list obj) :
  partial_schedule h sched ->
  getAllArticles h sched includePrivate = Fulfilled l ->
  fair h sched /\
  exists articles,
    Forall2 (fun f a => importArticle h f = Fulfilled a) (articleFilenames h) articles /\
    l = Array_sort (by_date_desc h) (kept includePrivate articles).
Proof.
  intros [Hnd Hlt] Hl.
  assert (fair h sched) as Hfair.
  { destruct (getAllArticles_Fulfilled_inv h sched includePrivate l Hl)
      as (articles & Hall & _).
    unfold fair. rewrite <- (length_map (importArticle h)).
    eapply all_fulfilled_complete; [exact Hnd | | exact Hall].
    intros i Hi. rewrite length_map. now apply Hlt. }
  split; [exact Hfair |].
  now apply (getAllArticles_returned_inv h sched includePrivate l Hfair).
Qed.

Lemma getAllArticles_never_partial_witness :
  fair Examples.three_articles [2; 0; 1]%nat.
Proof.
  apply (getAllArticles_never_partial Examples.three_articles [2; 0; 1]%nat true
           (default [] (returned (getAllArticles Examples.three_articles [2; 0; 1]%nat true)))).
  - split.
    + repeat constructor; rewrite ?elem_of_cons; intros H;
        repeat (destruct H as [H|H]; [discriminate H |]); inversion H.
    + intros i Hi. vm_compute.
      repeat (apply elem_of_cons in Hi as [->|Hi]; [lia |]). inversion Hi.
  - apply fulfilled_returned. vm_compute. reflexivity.
Defined.

(** ** A stable sort under a consistent comparator *)

Section StableSort.
Context {A : Type} (cmp : A -> A -> num) (key : A -> Z) (P : A -> Prop).

(** On the elements that satisfy [P] the comparator orders by [key],
    largest first. *)
Hypothesis cmp_key :
  forall x y, P x -> P y -> (0 <? SortCompare (cmp x y))%Z = (key x <? key y)%Z.

Lemma Forall_filter (Q : A -> Prop) (p : A -> bool) (l : list A) :
  Forall Q l -> Forall Q (List.filter p l).
Proof.
  rewrite !List.Forall_forall. intros H x Hx.
  apply filter_In in Hx as [Hx _]. now apply H.
Qed.

Lemma sort_insert_head (x : A) (l : list A) :
  P x -> Forall P l -> Forall (fun b => (key b <= key x)%Z) l ->
  sort_insert cmp x l = x :: l.
Proof.
  intros Px Pl Hl. destruct l as [|y l]; [reflexivity |].
  cbn [sort_insert]. apply Forall_cons in Pl as [Py _].
  apply Forall_cons in Hl as [Hy _].
  rewrite (cmp_key x y Px Py).
  destruct (Z.ltb_spec (key x) (key y)); [lia | reflexivity].
Qed.

Lemma filter_insert_drop (p : A -> bool) (x : A) (s : list A) :
  p x = false -> List.filter p (sort_insert cmp x s) = List.filter p s.
Proof.
  intros Hx. induction s as [|y s IH]; cbn [sort_insert List.filter].
  - now rewrite Hx.
  - destruct (0 <? SortCompare (cmp x y))%Z; cbn [List.filter].
    + now rewrite IH.
    + now rewrite Hx.
Qed.

Lemma filter_insert_keep (p : A -> bool) (x : A) (s : list A) :
  p x = true -> P x -> Forall P s ->
  StronglySorted (fun a b => (key b <= key a)%Z) s ->
  List.filter p (sort_insert cmp x s) = sort_insert cmp x (List.filter p s).
Proof.
  intros Hx Px Ps Hs. induction Hs as [|y s Hs IH Hy].
  - cbn. now rewrite Hx.
  - apply Forall_cons in Ps as [Py Ps]. cbn [sort_insert].
    rewrite (cmp_key x y Px Py).
    destruct (Z.ltb_spec (key x) (key y)) as [Hlt|Hge]; cbn [List.filter].
    + rewrite (IH Ps). destruct (p y); [|reflexivity].
      cbn [sort_insert]. rewrite (cmp_key x y Px Py).
      destruct (Z.ltb_spec (key x) (key y)); [reflexivity | lia].
    + rewrite Hx. symmetry.
      change (if p y then y :: List.filter p s else List.filter p s)
        with (List.filter p (y :: s)).
      apply sort_insert_head; [exact Px | |].
      * apply Forall_filter. now constructor.
      * apply Forall_filter. constructor; [exact Hge |].
        eapply Forall_impl; [exact Hy |]. cbn. intros b Hb. lia.
Qed.

Lemma Array_sort_StronglySorted (l : list A) :
  Forall P l ->
  StronglySorted (fun a b => (key b <= key a)%Z) (Array_sort cmp l).
Proof.
  intros Pl. apply Sorted.Sorted_StronglySorted.
  - intros a b c Hab Hbc. lia.
  - apply (Array_sort_Sorted cmp _ P); [|exact Pl].
    intros x y Px Py. rewrite (cmp_key x y Px Py).
    destruct (Z.ltb_spec (key x) (key y)); lia.
Qed.

(** Filtering before the sort or after it gives the same array. *)
Lemma Array_sort_filter (p : A -> bool) (l : list A) :
  Forall P l ->
  Array_sort cmp (List.filter p l) = List.filter p (Array_sort cmp l).
Proof.
  induction l as [|x l IH]; intros Pl; [reflexivity |].
  apply Forall_cons in Pl as [Px Pl]. cbn [List.filter Array_sort].
  destruct (p x) eqn:Hx.
  - cbn [Array_sort]. rewrite (IH Pl). symmetry.
    apply filter_insert_keep; [exact Hx | exact Px | |].
    + now rewrite Array_sort_perm.
    + now apply Array_sort_StronglySorted.
  - rewrite (filter_insert_drop p x _ Hx). now apply IH.
Qed.

(** Elements with one and the same key are left as they are. *)
Lemma Array_sort_equal_keys (t : Z) (l : list A) :
  Forall P l -> Forall (fun a => key a = t) l -> Array_sort cmp l = l.
Proof.
  induction l as [|x l IH]; intros Pl Hl; [reflexivity |].
  apply Forall_cons in Pl as [Px Pl]. apply Forall_cons in Hl as [Hx Hl].
  cbn [Array_sort]. rewrite (IH Pl Hl).
  apply sort_insert_head; [exact Px | exact Pl |].
  eapply Forall_impl; [exact Hl |]. cbn. intros b Hb. lia.
Qed.

End StableSort.

Section DateOrder.
Variable h : host.

Lemma by_date_desc_key (x y : obj) :
  valid_date h x -> valid_date h y ->
  (0 <? SortCompare (by_date_desc h x y))%Z = (time_of h x <? time_of h y)%Z.
Proof.
  unfold valid_date, by_date_desc, time_of. intros [tx ->] [ty ->]. cbn.
  destruct (Z.ltb_spec 0 (ty - tx)), (Z.ltb_spec tx ty); lia || reflexivity.
Qed.

Lemma dated_at_time (t : Z) (r : obj) :
  dated_at h t r = true -> valid_date h r /\ time_of h r = t.
Proof.
  unfold dated_at, valid_date, time_of.
  destruct (Date_valueOf h (get r "date")) as [t'|]; [|discriminate].
  intros Ht. apply Z.eqb_eq in Ht. split; [eauto | exact Ht].
Qed.

Lemma date_ge_trans (a b c : obj) :
  date_ge h a b -> date_ge h b c -> date_ge h a c.
Proof.
  unfold date_ge.
  destruct (Date_valueOf h (get a "date")), (Date_valueOf h (get b "date")),
           (Date_valueOf h (get c "date")); try easy. lia.
Qed.

Lemma Forall_valid_perm (l l' : list obj) :
  Permutation l l' -> Forall (valid_date h) l -> Forall (valid_date h) l'.
Proof. intros Hp Hl. now rewrite <- Hp. Qed.

End DateOrder.

Section Listing.
Variable h : host.

Lemma records_loaded (ms : list module_ns) :
  Forall2 (fun f m => import_ h (specifier f) = Fulfilled m) (articleFilenames h) ms ->
  Forall2 (fun f a => importArticle h f = Fulfilled a) (articleFilenames h)
          (zip_with (fun f m => spread {[ "slug" := VStr (replace_page_mdx f) ]} (article m))
                    (articleFilenames h) ms).
Proof.
  generalize (articleFilenames h). intros fs Hms.
  induction Hms as [|f m fs' ms' Hf _ IH]; cbn; constructor;
    [now apply importArticle_loaded | exact IH].
Qed.

Lemma loaded_all (articles : list obj) :
  Forall2 (fun f a => importArticle h f = Fulfilled a) (articleFilenames h) articles ->
  loaded h = articles.
Proof.
  unfold loaded. generalize (articleFilenames h). intros fs Hall.
  induction Hall as [|f a fs' as' Hf _ IH]; [reflexivity |].
  cbn [omap list_omap]. rewrite Hf. cbn. now rewrite IH.
Qed.

Lemma outcome_Pending {A : Type} (p : promise A) :
  outcome p = None <-> p = Pending.
Proof. destruct p; cbn; split; intros E; congruence. Qed.

End Listing.



(** X10: the sort is stable on dates.  When every returned date is valid,
    the returned records that share a date appear in the order in which
    their units were discovered. *)
Theorem equal_dates_keep_discovery_order (h : host) (sched : list nat)
        (includePrivate : bool) (l : list obj) :
  fair h sched ->
  getAllArticles h sched includePrivate = Fulfilled l ->
  Forall (valid_date h) l ->
  forall t : Z,
    List.filter (dated_at h t) l
    = List.filter (dated_at h t) (kept includePrivate (loaded h)).
Proof.
  intros Hfair Hl Hvalid t.
  destruct (getAllArticles_returned_inv h sched includePrivate l Hfair Hl)
    as (articles & Hall & ->).
  rewrite (loaded_all h articles Hall).
  rewrite Array_sort_perm in Hvalid.
  rewrite <- (Array_sort_filter _ (time_of h) (valid_date h)
                (by_date_desc_key h) (dated_at h t) _ Hvalid).
  apply (Array_sort_equal_keys _ (time_of h) (valid_date h) (by_date_desc_key h) t).
  - now apply Forall_filter.
  - apply List.Forall_forall. intros r Hr. apply filter_In in Hr as [_ Hr].
    now apply dated_at_time in Hr as [_ Hr].
Qed.

Lemma equal_dates_keep_discovery_order_witness :
  List.filter (dated_at MoreExamples.same_day 1736467200000)
    (default [] (returned (getAllArticles MoreExamples.same_day [2; 1; 0]%nat true)))
  = List.filter (dated_at MoreExamples.same_day 1736467200000)
      (kept true (loaded MoreExamples.same_day)).
Proof.
  apply (equal_dates_keep_discovery_order MoreExamples.same_day [2; 1; 0]%nat true).
  - unfold fair. vm_compute.
    eapply perm_trans; [apply perm_swap |].
    eapply perm_trans; [apply perm_skip, perm_swap | apply perm_swap].
  - apply fulfilled_returned. vm_compute. reflexivity.
  - apply valid_dateb_spec. vm_compute. reflexivity.
Defined.

(** The two articles of 2025-01-10 come back in discovery order, after the
    newer one. *)
Example same_day_listing :
  map (fun r : obj => get r "slug")
      (default [] (returned (getAllArticles MoreExamples.same_day [2; 1; 0]%nat true)))
  = [VStr "y"; VStr "x"; VStr "z"].
Proof. vm_compute. reflexivity. Qed.

(** X11: when every returned date is valid, every record of the result is
    at least as recent as every record after it, not only the next one; in
    particular the first record is a most recent one. *)
Theorem newest_first (h : host) (sched : list nat) (includePrivate : bool)
        (l : list obj) :
  getAllArticles h sched includePrivate = Fulfilled l ->
  Forall (valid_date h) l ->
  StronglySorted (date_ge h) l /\
  forall r rest, l = r :: rest -> Forall (date_ge h r) rest.
Proof.
  intros Hl Hvalid.
  destruct (getAllArticles_Fulfilled_inv h sched includePrivate l Hl)
    as (articles & _ & ->).
  assert (StronglySorted (date_ge h)
            (Array_sort (by_date_desc h) (kept includePrivate articles))) as Hs.
  { apply Sorted.Sorted_StronglySorted.
    - intros a b c. apply date_ge_trans.
    - apply sort_by_date_Sorted. now rewrite Array_sort_perm in Hvalid. }
  split; [exact Hs |].
  intros r rest E. rewrite E in Hs. now apply StronglySorted_inv in Hs as [_ Hs].
Qed.

Lemma newest_first_witness :
  StronglySorted (date_ge MoreExamples.same_day)
    (default [] (returned (getAllArticles MoreExamples.same_day [0; 1; 2]%nat false))).
Proof.
  apply (newest_first MoreExamples.same_day [0; 1; 2]%nat false).
  - apply fulfilled_returned. vm_compute. reflexivity.
  - apply valid_dateb_spec. vm_compute. reflexivity.
Defined.

(** X12: when no unit's metadata declares a [slug] of its own, the slugs of
    the full listing are the slugs derived from the discovered filenames,
    each one once: the listing links to the unit directories and to nothing
    else. *)
Theorem listing_slugs_are_derived (h : host) (sched : list nat)
        (ms : list module_ns) :
  fair h sched ->
  Forall2 (fun f m => import_ h (specifier f) = Fulfilled m) (articleFilenames h) ms ->
  Forall (fun m => default ∅ (article m) !! "slug" = None) ms ->
  exists l,
    getAllArticles h sched true = Fulfilled l /\
    Permutation (map (fun r : obj => get r "slug") l)
                (map (fun f => VStr (replace_page_mdx f)) (articleFilenames h)).
Proof.
  intros Hfair Hms Hno.
  pose proof (records_loaded h ms Hms) as Hrec.
  eexists. split; [exact (getAllArticles_fulfils h sched true _ Hfair Hrec) |].
  cbn [kept]. rewrite Array_sort_perm.
  clear Hrec Hfair. revert Hno. generalize (articleFilenames h) Hms. clear Hms.
  intros fs Hms. induction Hms as [|f m fs' ms' _ _ IH]; intros Hno; [reflexivity |].
  apply Forall_cons in Hno as [Hm Hno]. cbn [zip_with map].
  rewrite (derived_slug_read f m Hm). apply perm_skip. now apply IH.
Qed.

Lemma listing_slugs_are_derived_witness :
  exists l,
    getAllArticles Examples.missing_export [1; 0]%nat true = Fulfilled l /\
    Permutation (map (fun r : obj => get r "slug") l)
                (map (fun f => VStr (replace_page_mdx f))
                     (articleFilenames Examples.missing_export)).
Proof.
  apply (listing_slugs_are_derived Examples.missing_export [1; 0]%nat
           [ {| article := Some (Examples.meta "2024-01-01" None) |};
             {| article := None |} ]).
  - unfold fair. vm_compute. apply perm_swap.
  - change (articleFilenames Examples.missing_export) with ["a/page.mdx"; "b/page.mdx"].
    repeat constructor.
  - repeat constructor.
Defined.

(** X13: the call has no time limit.  If the import of one unit never
    settles and no import rejects, the call never settles either, even
    after every other import has fulfilled. *)
Theorem hanging_import_hangs_the_call (h : host) (sched : list nat)
        (includePrivate : bool) (f : string) :
  fair h sched ->
  In f (articleFilenames h) ->
  import_ h (specifier f) = Pending ->
  Forall (fun f' => is_rejected (import_ h (specifier f')) = false)
         (articleFilenames h) ->
  getAllArticles h sched includePrivate = Pending.
Proof.
  intros Hfair Hin Hf Hnone. apply outcome_Pending.
  rewrite getAllArticles_settled by exact Hfair.
  unfold PromiseAll.settled.
  replace (existsb _ _) with false.
  - destruct (mapM _ _) as [vs|] eqn:Hvs; [|reflexivity].
    exfalso. apply mapM_Some, Forall2_fmap_l in Hvs.
    apply list_elem_of_In, list_elem_of_lookup in Hin as [i Hi].
    destruct (Forall2_lookup_l _ _ _ _ _ Hvs Hi) as (v & _ & Hv).
    cbn in Hv. unfold importArticle in Hv. fold (specifier f) in Hv.
    rewrite Hf in Hv. discriminate Hv.
  - symmetry. apply not_true_is_false. intros Hex.
    apply existsb_exists in Hex as (p & Hp & Hrej).
    apply in_map_iff in Hp as (f' & <- & Hf').
    apply (proj1 (List.Forall_forall _ _) Hnone) in Hf'.
    unfold importArticle in Hrej. fold (specifier f') in Hrej.
    destruct (import_ h (specifier f')); discriminate.
Qed.

Lemma hanging_import_hangs_the_call_witness :
  getAllArticles MoreExamples.hanging_import [0; 1]%nat true = Pending.
Proof.
  apply (hanging_import_hangs_the_call MoreExamples.hanging_import [0; 1]%nat true
           "b/page.mdx").
  - unfold fair. vm_compute. apply Permutation_refl.
  - vm_compute. tauto.
  - reflexivity.
  - change (articleFilenames MoreExamples.hanging_import)
      with ["a/page.mdx"; "b/page.mdx"].
    repeat constructor.
Defined.
